(** * image_labeler.py: input cell factories and the ImageLabeler state machine

    Shallow embedding of [src/image_labeler.py].  Python exceptions are
    the [Raise] case of a small exception monad; Python lists are Rocq
    lists read and written through [py_getitem] / [py_setitem], which raise
    [IndexError] out of range as Python does.  The widget toolkit is modelled
    only as far as the code relies on it: a ToggleButtons accepts only one of
    its options as value and notifies its observer when the value changes; a
    BoundedIntText or IntProgress clamps every value it receives into
    [min, max]; an Output widget used as a context manager suppresses the
    exceptions raised in its body, as it does in an IPython kernel.  The
    labeler is generic in its cell factory: [new] either builds a cell or
    raises. *)

From Stdlib Require Import String List Arith Lia ZArith Bool DecimalString.
Import ListNotations.

(** ** Exceptions and the exception monad *)

Inductive exn : Type :=
  | AssertionError
  | IndexError
  | TraitError.

Inductive result (A : Type) : Type :=
  | Ok (a : A)
  | Raise (e : exn).
Arguments Ok {A} a.
Arguments Raise {A} e.

Definition bind {A B : Type} (m : result A) (k : A -> result B) : result B :=
  match m with
  | Ok a => k a
  | Raise e => Raise e
  end.

Notation "x <- m ;; k" := (bind m (fun x => k))
  (at level 61, m at next level, right associativity).

(** [l[i]] *)
Fixpoint py_getitem {A : Type} (l : list A) (i : nat) : result A :=
  match l, i with
  | [], _ => Raise IndexError
  | x :: _, O => Ok x
  | _ :: r, S i' => py_getitem r i'
  end.

(** [l[i] = x] *)
Fixpoint py_setitem {A : Type} (l : list A) (i : nat) (x : A) : result (list A) :=
  match l, i with
  | [], _ => Raise IndexError
  | _ :: r, O => Ok (x :: r)
  | y :: r, S i' => r' <- py_setitem r i' x ;; Ok (y :: r')
  end.

(** ** Python values used as class labels

    The class-selector factory compares its classes with [==] and tests the
    default for truthiness; classes are None, integers or strings here. *)

Inductive pyval : Type :=
  | PNone
  | PInt (z : Z)
  | PStr (s : string).

Definition pyval_eqb (a b : pyval) : bool :=
  match a, b with
  | PNone, PNone => true
  | PInt x, PInt y => Z.eqb x y
  | PStr x, PStr y => String.eqb x y
  | _, _ => false
  end.

(** [bool(v)] *)
Definition py_truthy (v : pyval) : bool :=
  match v with
  | PNone => false
  | PInt z => negb (Z.eqb z 0)
  | PStr s => negb (String.eqb s EmptyString)
  end.

Definition is_none (v : pyval) : bool :=
  match v with PNone => true | _ => false end.

(** [v in l] *)
Definition py_in (v : pyval) (l : list pyval) : bool :=
  existsb (pyval_eqb v) l.

(** ** Toolkit: ToggleButtons *)

Record ToggleButtons : Type := {
  tb_options : list pyval;
  tb_value : pyval
}.

(** [widgets.ToggleButtons(options=..., value=...)]: the value must be one
    of the options, otherwise the trait validator raises. *)
Definition ToggleButtons_new (options : list pyval) (value : pyval)
  : result ToggleButtons :=
  if py_in value options
  then Ok {| tb_options := options; tb_value := value |}
  else Raise TraitError.

(** The change record passed to an observer registered with
    [observe(..., names='value')]. *)
Record change : Type := { change_old : pyval; change_new : pyval }.

(** ** MultiClassInputCellFactory *)

Record MultiClassInputCellFactory : Type := {
  mc_classes : list pyval;
  mc_default_class : pyval
}.

(** [__init__(self, classes, default=None)] *)
Definition MultiClassInputCellFactory_init (classes : list pyval) (default : pyval)
  : result MultiClassInputCellFactory :=
  d <- (if py_truthy default then Ok default else py_getitem classes 0) ;;
  Ok {| mc_classes := classes; mc_default_class := d |}.

(** [new(self, result_callback, value=None)]: the widget it builds. *)
Definition mc_new (self : MultiClassInputCellFactory) (value : pyval)
  : result ToggleButtons :=
  let value := if is_none value || negb (py_in value (mc_classes self))
               then mc_default_class self else value in
  ToggleButtons_new (mc_classes self) value.

(** [on_change(change)]: the values passed to [result_callback]. *)
Definition mc_on_change (ch : change) : list pyval := [change_new ch].

(** The user clicks option [c]: the toolkit sets the value (validated against
    the options) and, when it differs from the old one, notifies the
    observer.  Returns the new widget and the calls made to
    [result_callback]. *)
Definition tb_select (w : ToggleButtons) (c : pyval)
  : result (ToggleButtons * list pyval) :=
  if negb (py_in c (tb_options w)) then Raise TraitError
  else if pyval_eqb c (tb_value w) then Ok (w, [])
  else Ok ({| tb_options := tb_options w; tb_value := c |},
           mc_on_change {| change_old := tb_value w; change_new := c |}).

(** ** DetectorValidationInputCellFactory *)

Record ValResult : Type := { tp : Z; fp : Z; fn : Z }.

(** Toolkit: [widgets.BoundedIntText]; its value validator caps and floors
    every value it is given, at construction and on each edit. *)
Record BoundedIntText : Type := { bi_value : Z; bi_min : Z; bi_max : Z }.

Definition bi_clamp (lo hi v : Z) : Z :=
  if ((lo >? v) || (hi <? v))%Z then Z.min (Z.max v lo) hi else v.

Definition BoundedIntText_new (value lo hi : Z) : BoundedIntText :=
  {| bi_value := bi_clamp lo hi value; bi_min := lo; bi_max := hi |}.

Definition bi_set (w : BoundedIntText) (v : Z) : BoundedIntText :=
  {| bi_value := bi_clamp (bi_min w) (bi_max w) v;
     bi_min := bi_min w; bi_max := bi_max w |}.

(** Toolkit: [widgets.IntProgress(value=..., min=..., max=...)], a bounded
    int widget whose value is capped and floored as BoundedIntText's; its
    [min] and [max] validators raise [TraitError] when [min > max]. *)
Definition IntProgress_new (value lo hi : Z) : result BoundedIntText :=
  if (hi <? lo)%Z then Raise TraitError else Ok (BoundedIntText_new value lo hi).

(** The [HBox([tp_widget, fp_widget, fn_widget, submit_btn])] returned by
    [new]; the button carries no state of its own. *)
Record ValCell : Type := {
  tp_widget : BoundedIntText;
  fp_widget : BoundedIntText;
  fn_widget : BoundedIntText
}.

(** [new(self, result_callback, value=None)] *)
Definition dv_new (value : option ValResult) : ValCell :=
  let '(tp0, fp0, fn0) :=
    match value with
    | None => (0%Z, 0%Z, 0%Z)
    | Some v => (tp v, fp v, fn v)
    end in
  {| tp_widget := BoundedIntText_new tp0 0 100;
     fp_widget := BoundedIntText_new fp0 0 100;
     fn_widget := BoundedIntText_new fn0 0 100 |}.

(** [on_submit(unused)]: the values passed to [result_callback]. *)
Definition dv_on_submit (c : ValCell) : list ValResult :=
  [{| tp := bi_value (tp_widget c);
      fp := bi_value (fp_widget c);
      fn := bi_value (fn_widget c) |}].

(** What the user can do with the cell. *)
Inductive ValEvent : Type :=
  | EditTp (v : Z)
  | EditFp (v : Z)
  | EditFn (v : Z)
  | ClickSubmit.

Definition dv_step (c : ValCell) (e : ValEvent) : ValCell * list ValResult :=
  match e with
  | EditTp v => ({| tp_widget := bi_set (tp_widget c) v;
                    fp_widget := fp_widget c; fn_widget := fn_widget c |}, [])
  | EditFp v => ({| tp_widget := tp_widget c;
                    fp_widget := bi_set (fp_widget c) v; fn_widget := fn_widget c |}, [])
  | EditFn v => ({| tp_widget := tp_widget c; fp_widget := fp_widget c;
                    fn_widget := bi_set (fn_widget c) v |}, [])
  | ClickSubmit => (c, dv_on_submit c)
  end.

Fixpoint dv_run (c : ValCell) (es : list ValEvent) : ValCell * list ValResult :=
  match es with
  | [] => (c, [])
  | e :: es' =>
      let '(c1, out1) := dv_step c e in
      let '(c2, out2) := dv_run c1 es' in
      (c2, out1 ++ out2)
  end.

(** ** ImageLabeler *)

(** [with out: body] for an [Output] widget [out].  The labeler runs in an
    IPython kernel, where [Output.__exit__] shows the traceback of an
    exception raised in the body and returns True, which suppresses it.  The
    bodies below change the state only in their last statement, so after a
    suppressed exception the state is the one from before the body:
    [before]. *)
Definition output_with {A : Type} (body : result A) (before : A) : A :=
  match body with
  | Ok a => a
  | Raise _ => before
  end.

(** The attributes of an [ImageLabeler] object that the code reads and
    writes.  [rendered] is a ghost log, not in the source: the indices passed
    to [render_img], in call order. *)
Record Labeler (Img L : Type) : Type := {
  images : list Img;
  labels : list L;
  seen : list bool;
  rendered : list nat
}.
Arguments images {Img L} _.
Arguments labels {Img L} _.
Arguments seen {Img L} _.
Arguments rendered {Img L} _.

(** Single mode adds the variables of [_render_single] captured by its
    closures: [idx] (the [nonlocal] index) and [auto_next] (the value of
    [auto_next_box]).  [shown] is the index captured by the [cell_callback]
    of the cell displayed in [img_output]; it is [None] when no cell is
    displayed: before the first render, and after a render whose call of
    [new] raised (the old cell was removed by [img_output.clear_output()]). *)
Record Single (Img L : Type) : Type := {
  lab : Labeler Img L;
  idx : nat;
  shown : option nat;
  auto_next : bool
}.
Arguments lab {Img L} _.
Arguments idx {Img L} _.
Arguments shown {Img L} _.
Arguments auto_next {Img L} _.

Section ImageLabeler.

(** [Img] stands for the numpy arrays, [L] for the labels; [py_none] is the
    label [None]. *)
Context {Img L : Type} (py_none : L).

(** [self._cell_factory.new(cell_callback, value=v)]: it returns the widget
    [W] it builds, or raises.  The factories register [cell_callback] as an
    observer or a click handler and do not call it from [new]; its later
    calls are the [Cell] events below. *)
Context {W : Type} (cell_factory_new : L -> result W).

(** Whether [new(cell_callback, value=v)] returns rather than raises. *)
Definition builds_cell (v : L) : bool :=
  match cell_factory_new v with
  | Ok _ => true
  | Raise _ => false
  end.

(** Whether the render of image [i] of [self] gets past [new]:
    [self._labels[i]] exists and [new] returns on it. *)
Definition cell_built (self : Labeler Img L) (i : nat) : bool :=
  match py_getitem (labels self) i with
  | Ok v => builds_cell v
  | Raise _ => false
  end.

Definition with_seen (self : Labeler Img L) (seen' : list bool) (i : nat)
  : Labeler Img L :=
  {| images := images self; labels := labels self; seen := seen';
     rendered := rendered self ++ [i] |}.

Definition with_labels (self : Labeler Img L) (labels' : list L) : Labeler Img L :=
  {| images := images self; labels := labels'; seen := seen self;
     rendered := rendered self |}.

(** [__init__], up to the call of the render method (lines 88-95). *)
Definition init_fields (images0 : list Img) (default_labels : option (list L))
  : result (Labeler Img L) :=
  let default_labels :=
    match default_labels with
    | None => repeat py_none (length images0)
    | Some l => l
    end in
  if negb (length default_labels =? length images0) then Raise AssertionError
  else Ok {| images := images0; labels := default_labels;
             seen := repeat false (length images0); rendered := [] |}.

(** [_load_image(idx)]: reads [self._images[idx]]; the PNG encoding is not
    modelled. *)
Definition load_image (self : Labeler Img L) (i : nat) : result Img :=
  py_getitem (images self) i.

Definition all_seen (self : Labeler Img L) : bool :=
  forallb (fun b => b) (seen self).

(** *** Multi mode *)

(** [_render_multi.render_img(idx)]: [_load_image] runs before the
    [with img_output:] block; inside it, [self._labels[idx]] is read, [new]
    is called on it and [self._seen[idx] = True] follows. *)
Definition render_img_multi (self : Labeler Img L) (i : nat) : result (Labeler Img L) :=
  _ <- load_image self i ;;
  let seen' :=
    output_with
      (v <- py_getitem (labels self) i ;;
       _ <- cell_factory_new v ;;
       py_setitem (seen self) i true)
      (seen self) in
  Ok (with_seen self seen' i).

Fixpoint render_multi_loop (is : list nat) (self : Labeler Img L)
  : result (Labeler Img L) :=
  match is with
  | [] => Ok self
  | i :: is' => self' <- render_img_multi self i ;; render_multi_loop is' self'
  end.

(** [_render_multi]: [for i in range(len(self._images)): render_img(i)] *)
Definition render_multi (self : Labeler Img L) : result (Labeler Img L) :=
  render_multi_loop (seq 0 (length (images self))) self.

(** [_render_multi.render_img.cell_callback(label)] for the cell of image [i]. *)
Definition cell_callback_multi (i : nat) (label : L) (self : Labeler Img L)
  : result (Labeler Img L) :=
  labels' <- py_setitem (labels self) i label ;;
  Ok (with_labels self labels').

Definition ImageLabeler_multi (images0 : list Img) (default_labels : option (list L))
  : result (Labeler Img L) :=
  self <- init_fields images0 default_labels ;;
  render_multi self.

(** Reachable multi-mode objects: construction, then callbacks of the cells.
    Only an image whose render got past [new] has a cell; the relation lets
    the callback of any image fire, which can only add states. *)
Inductive reach_multi : Labeler Img L -> Prop :=
  | rm_init images0 dl self :
      ImageLabeler_multi images0 dl = Ok self -> reach_multi self
  | rm_cell self i label self' :
      reach_multi self -> i < length (images self) ->
      cell_callback_multi i label self = Ok self' -> reach_multi self'.

(** *** Single mode *)

Definition n_images (s : Single Img L) : nat := length (images (lab s)).

Definition with_idx (s : Single Img L) (k : nat) : Single Img L :=
  {| lab := lab s; idx := k; shown := shown s; auto_next := auto_next s |}.

(** [_render_single.render_img(idx)]: [_load_image], then
    [img_output.clear_output()] (the old cell goes), then inside
    [with img_output:] the read of [self._labels[idx]], [new], the display
    of the new cell and [self._seen[idx] = True]. *)
Definition render_img_single (s : Single Img L) (i : nat) : result (Single Img L) :=
  _ <- load_image (lab s) i ;;
  let '(seen', shown') :=
    output_with
      (v <- py_getitem (labels (lab s)) i ;;
       _ <- cell_factory_new v ;;
       seen' <- py_setitem (seen (lab s)) i true ;;
       Ok (seen', Some i))
      (seen (lab s), None) in
  Ok {| lab := with_seen (lab s) seen' i; idx := idx s; shown := shown';
        auto_next := auto_next s |}.

(** [next_img(unused)]; [n - 1] on nat is 0 at [n = 0], where the Python
    test [idx < -1] and the nat test [idx < 0] are both false. *)
Definition next_img (s : Single Img L) : result (Single Img L) :=
  if idx s <? n_images s - 1
  then render_img_single (with_idx s (idx s + 1)) (idx s + 1)
  else Ok s.

(** [prev_img(unused)] *)
Definition prev_img (s : Single Img L) : result (Single Img L) :=
  if 0 <? idx s
  then render_img_single (with_idx s (idx s - 1)) (idx s - 1)
  else Ok s.

(** [_render_single.render_img.cell_callback(label)] for the cell rendered
    for image [i]. *)
Definition cell_callback_single (i : nat) (label : L) (s : Single Img L)
  : result (Single Img L) :=
  labels' <- py_setitem (labels (lab s)) i label ;;
  let s1 := {| lab := with_labels (lab s) labels'; idx := idx s;
               shown := shown s; auto_next := auto_next s |} in
  if (i <? n_images s1 - 1) && auto_next s1 then next_img s1 else Ok s1.

(** [_render_single]: the IntProgress [value=1, min=1, max=n] (line 148),
    then, inside [with self._output:], the render of image 0 with [idx = 0]
    and the checkbox checked. *)
Definition render_single (self : Labeler Img L) : result (Single Img L) :=
  _ <- IntProgress_new 1 1 (Z.of_nat (length (images self))) ;;
  let s0 := {| lab := self; idx := 0; shown := None; auto_next := true |} in
  Ok (output_with (render_img_single s0 0) s0).

Definition ImageLabeler_single (images0 : list Img) (default_labels : option (list L))
  : result (Single Img L) :=
  self <- init_fields images0 default_labels ;;
  render_single self.

(** The widget events of single mode: the two buttons, the displayed cell
    submitting a label, and toggling the auto-advance checkbox. *)
Inductive event : Type :=
  | Next
  | Prev
  | Cell (label : L)
  | SetAuto (b : bool).

(** A [Cell] event comes from the displayed cell; with no cell displayed
    there is none, and the step leaves the state as it is. *)
Definition single_step (s : Single Img L) (e : event) : result (Single Img L) :=
  match e with
  | Next => next_img s
  | Prev => prev_img s
  | Cell label =>
      match shown s with
      | Some i => cell_callback_single i label s
      | None => Ok s
      end
  | SetAuto b => Ok {| lab := lab s; idx := idx s; shown := shown s; auto_next := b |}
  end.

Inductive reach_single : Single Img L -> Prop :=
  | rs_init images0 dl s :
      ImageLabeler_single images0 dl = Ok s -> reach_single s
  | rs_step s e s' :
      reach_single s -> single_step s e = Ok s' -> reach_single s'.

End ImageLabeler.

(** ** Sequences of events *)

(** The events delivered to a single-mode labeler one after another. *)
Fixpoint run_single {Img L W : Type} (cell_factory_new : L -> result W)
  (s : Single Img L) (es : list (@event L)) : result (Single Img L) :=
  match es with
  | [] => Ok s
  | e :: es' => s' <- single_step cell_factory_new s e ;; run_single cell_factory_new s' es'
  end.

(** Clicks on the options of a ToggleButtons, with the calls each makes to
    [result_callback], in order. *)
Fixpoint tb_run (w : ToggleButtons) (cs : list pyval)
  : result (ToggleButtons * list pyval) :=
  match cs with
  | [] => Ok (w, [])
  | c :: cs' =>
      r1 <- tb_select w c ;;
      let '(w1, out1) := r1 in
      r2 <- tb_run w1 cs' ;;
      let '(w2, out2) := r2 in
      Ok (w2, out1 ++ out2)
  end.

(** ** The progress display of single mode *)

(** [str(k)] for a non-negative int. *)
Definition py_str_nat (k : nat) : string :=
  NilZero.string_of_uint (Nat.to_uint k).

(** ['{} / {}'.format(k, n)] *)
Definition progress_text (k n : nat) : string :=
  (py_str_nat k ++ " / " ++ py_str_nat n)%string.

(** Single mode together with [pbar_widget] (the IntProgress) and the text
    of [label_widget]. *)
Record SingleUI (Img L : Type) : Type := {
  core : Single Img L;
  pbar_widget : BoundedIntText;
  label_widget : string
}.
Arguments core {Img L} _.
Arguments pbar_widget {Img L} _.
Arguments label_widget {Img L} _.

Section Progress.
Context {Img L : Type} (py_none : L) {W : Type} (cell_factory_new : L -> result W).

Definition with_core (u : SingleUI Img L) (s : Single Img L) : SingleUI Img L :=
  {| core := s; pbar_widget := pbar_widget u; label_widget := label_widget u |}.

(** [set_progess()] *)
Definition set_progess (u : SingleUI Img L) : SingleUI Img L :=
  {| core := core u;
     pbar_widget := bi_set (pbar_widget u) (Z.of_nat (idx (core u) + 1));
     label_widget := progress_text (idx (core u) + 1) (n_images (core u)) |}.

(** [next_img] and [prev_img] end with [set_progess()]; a cell callback
    calls it through [next_img] exactly when it advances; the checkbox does
    not call it. *)
Definition ui_step (u : SingleUI Img L) (e : @event L) : result (SingleUI Img L) :=
  match e with
  | Next => s' <- next_img cell_factory_new (core u) ;; Ok (set_progess (with_core u s'))
  | Prev => s' <- prev_img cell_factory_new (core u) ;; Ok (set_progess (with_core u s'))
  | Cell label =>
      s' <- single_step cell_factory_new (core u) (Cell label) ;;
      match shown (core u) with
      | Some i =>
          if (i <? n_images (core u) - 1) && auto_next (core u)
          then Ok (set_progess (with_core u s'))
          else Ok (with_core u s')
      | None => Ok (with_core u s')
      end
  | SetAuto b =>
      s' <- single_step cell_factory_new (core u) (SetAuto b) ;; Ok (with_core u s')
  end.

(** [__init__] in single mode with the progress widgets: the IntProgress is
    built with [value=1, min=1, max=n], [set_progess()] runs at [idx = 0],
    then image 0 is rendered inside [with self._output:]. *)
Definition ImageLabeler_single_ui (images0 : list Img) (default_labels : option (list L))
  : result (SingleUI Img L) :=
  self <- init_fields py_none images0 default_labels ;;
  pbar <- IntProgress_new 1 1 (Z.of_nat (length (images self))) ;;
  let u0 := {| core := {| lab := self; idx := 0; shown := None; auto_next := true |};
               pbar_widget := pbar; label_widget := EmptyString |} in
  let u1 := set_progess u0 in
  Ok (with_core u1 (output_with (render_img_single cell_factory_new (core u1) 0) (core u1))).

Inductive reach_ui : SingleUI Img L -> Prop :=
  | ru_init images0 dl u :
      ImageLabeler_single_ui images0 dl = Ok u -> reach_ui u
  | ru_step u e u' :
      reach_ui u -> ui_step u e = Ok u' -> reach_ui u'.

(** What [set_progess()] keeps true of the progress widgets. *)
Definition ui_inv (u : SingleUI Img L) : Prop :=
  reach_single py_none cell_factory_new (core u) /\
  bi_min (pbar_widget u) = 1%Z /\
  bi_max (pbar_widget u) = Z.of_nat (n_images (core u)) /\
  bi_value (pbar_widget u) = Z.of_nat (idx (core u) + 1) /\
  label_widget u = progress_text (idx (core u) + 1) (n_images (core u)).

End Progress.

(** ** Invariants of the labeler *)

Section InvariantDefs.
Context {Img L : Type}.

(** Label and seen arrays as long as the image list; an image is seen only
    after it has been rendered. *)
Definition lab_inv (self : Labeler Img L) : Prop :=
  length (labels self) = length (images self) /\
  length (seen self) = length (images self) /\
  forall j, nth j (seen self) false = true -> In j (rendered self).

(** In single mode the index is in range, and a displayed cell belongs to
    the current image, which is then seen. *)
Definition single_inv (s : Single Img L) : Prop :=
  lab_inv (lab s) /\ idx s < n_images s /\
  forall i, shown s = Some i -> i = idx s /\ nth i (seen (lab s)) false = true.

End InvariantDefs.

(** ** Python list access *)

Lemma py_getitem_in {A : Type} (l : list A) (i : nat) :
  i < length l -> exists x, py_getitem l i = Ok x.
Proof.
  revert i; induction l as [|y l IH]; intros [|i] Hi; simpl in *; try lia.
  - eauto.
  - apply IH; lia.
Qed.


Lemma py_setitem_in {A : Type} (l : list A) (i : nat) (x : A) :
  i < length l ->
  exists l', py_setitem l i x = Ok l' /\ length l' = length l /\
             forall j d, nth j l' d = if Nat.eqb j i then x else nth j l d.
Proof.
  revert i; induction l as [|y l IH]; intros [|i] Hi; simpl in *; try lia.
  - exists (x :: l); split; [reflexivity|split; [reflexivity|]].
    intros [|j] d; reflexivity.
  - destruct (IH i ltac:(lia)) as (l' & E & Hlen & Hnth).
    rewrite E; simpl.
    exists (y :: l'); split; [reflexivity|split; [simpl; lia|]].
    intros [|j] d; simpl; [reflexivity|apply Hnth].
Qed.

Lemma py_getitem_nth {A : Type} (l : list A) (i : nat) (d : A) :
  i < length l -> py_getitem l i = Ok (nth i l d).
Proof.
  revert i; induction l as [|y l IH]; intros [|i] Hi; simpl in *; try lia.
  - reflexivity.
  - apply IH; lia.
Qed.

Lemma existsb_eqb_seq (j n : nat) : existsb (Nat.eqb j) (seq 0 n) = (j <? n).
Proof.
  destruct (Nat.ltb_spec j n) as [Hj|Hj].
  - apply existsb_exists; exists j; split; [apply in_seq; lia|apply Nat.eqb_refl].
  - apply not_true_is_false; intro Hex; apply existsb_exists in Hex.
    destruct Hex as (k & Hk & Heq); apply in_seq in Hk; apply Nat.eqb_eq in Heq; lia.
Qed.

Lemma all_seen_iff {Img L : Type} (self : Labeler Img L) :
  length (seen self) = length (images self) ->
  all_seen self = true <->
  (forall j, j < length (images self) -> nth j (seen self) false = true).
Proof.
  intro Hlen; unfold all_seen; rewrite forallb_forall; split.
  - intros H j Hj; apply H, nth_In; lia.
  - intros H x Hx; destruct (In_nth (seen self) x false Hx) as (j & Hj & <-).
    apply H; lia.
Qed.

Section Invariants.
Context {Img L W : Type} (cf : L -> result W).

Lemma with_seen_inv (self : Labeler Img L) (seen' : list bool) (i : nat) :
  lab_inv self -> length seen' = length (seen self) ->
  (forall j, nth j seen' false = true -> j = i \/ nth j (seen self) false = true) ->
  lab_inv (with_seen self seen' i).
Proof.
  intros (Hl & Hs & Hr) Hlen Hnth; unfold with_seen, lab_inv; simpl.
  split; [exact Hl|split; [lia|]].
  intros j Hj; rewrite in_app_iff.
  destruct (Hnth j Hj) as [->|H]; [right; left; reflexivity|left; apply Hr, H].
Qed.

Lemma cell_built_labels (a b : Labeler Img L) (i : nat) :
  labels a = labels b -> cell_built cf a i = cell_built cf b i.
Proof. intro H; unfold cell_built; rewrite H; reflexivity. Qed.

Lemma cell_built_nth (self : Labeler Img L) (i : nat) (d : L) :
  i < length (labels self) -> cell_built cf self i = builds_cell cf (nth i (labels self) d).
Proof. intro Hi; unfold cell_built; rewrite (py_getitem_nth _ _ d Hi); reflexivity. Qed.

Lemma cell_built_total (self : Labeler Img L) (i : nat) :
  (forall v, builds_cell cf v = true) -> i < length (labels self) ->
  cell_built cf self i = true.
Proof.
  intros Ht Hi; unfold cell_built.
  destruct (py_getitem_in (labels self) i Hi) as (v & ->); apply Ht.
Qed.

Lemma render_img_single_spec (s : Single Img L) (i : nat) :
  lab_inv (lab s) -> i < n_images s ->
  exists s', render_img_single cf s i = Ok s' /\ lab_inv (lab s') /\
    images (lab s') = images (lab s) /\ labels (lab s') = labels (lab s) /\
    idx s' = idx s /\ auto_next s' = auto_next s /\
    rendered (lab s') = rendered (lab s) ++ [i] /\
    (forall j, nth j (seen (lab s')) false =
               (Nat.eqb j i && cell_built cf (lab s) i) || nth j (seen (lab s)) false) /\
    shown s' = (if cell_built cf (lab s) i then Some i else None).
Proof.
  intros Hinv Hi; pose proof Hinv as (Hl & Hs & _); unfold n_images in Hi.
  unfold render_img_single, load_image, cell_built, builds_cell.
  destruct (py_getitem_in (images (lab s)) i Hi) as (im & ->); simpl.
  destruct (py_getitem_in (labels (lab s)) i ltac:(lia)) as (lb & ->); simpl.
  destruct (cf lb) as [w|e]; simpl.
  - destruct (py_setitem_in (seen (lab s)) i true ltac:(lia))
      as (seen' & -> & Hlen & Hnth); simpl.
    eexists; split; [reflexivity|].
    split.
    + apply with_seen_inv; [exact Hinv|exact Hlen|].
      intros j Hj; rewrite Hnth in Hj; destruct (Nat.eqb_spec j i); auto.
    + simpl; split; [reflexivity|split; [reflexivity|split; [reflexivity|]]].
      split; [reflexivity|split; [reflexivity|split; [|reflexivity]]].
      intro j; rewrite Hnth; destruct (Nat.eqb j i); reflexivity.
  - eexists; split; [reflexivity|].
    split.
    + apply with_seen_inv; [exact Hinv|reflexivity|auto].
    + simpl; split; [reflexivity|split; [reflexivity|split; [reflexivity|]]].
      split; [reflexivity|split; [reflexivity|split; [|reflexivity]]].
      intro j; rewrite andb_false_r; reflexivity.
Qed.

Lemma render_img_multi_spec (self : Labeler Img L) (i : nat) :
  lab_inv self -> i < length (images self) ->
  exists self', render_img_multi cf self i = Ok self' /\ lab_inv self' /\
    images self' = images self /\ labels self' = labels self /\
    rendered self' = rendered self ++ [i] /\
    (forall j, nth j (seen self') false =
               (Nat.eqb j i && cell_built cf self i) || nth j (seen self) false).
Proof.
  intros Hinv Hi; pose proof Hinv as (Hl & Hs & _).
  unfold render_img_multi, load_image, cell_built, builds_cell.
  destruct (py_getitem_in (images self) i Hi) as (im & ->); simpl.
  destruct (py_getitem_in (labels self) i ltac:(lia)) as (lb & ->); simpl.
  destruct (cf lb) as [w|e]; simpl.
  - destruct (py_setitem_in (seen self) i true ltac:(lia))
      as (seen' & -> & Hlen & Hnth); simpl.
    eexists; split; [reflexivity|].
    split.
    + apply with_seen_inv; [exact Hinv|exact Hlen|].
      intros j Hj; rewrite Hnth in Hj; destruct (Nat.eqb_spec j i); auto.
    + simpl; split; [reflexivity|split; [reflexivity|split; [reflexivity|]]].
      intro j; rewrite Hnth; destruct (Nat.eqb j i); reflexivity.
  - eexists; split; [reflexivity|].
    split.
    + apply with_seen_inv; [exact Hinv|reflexivity|auto].
    + simpl; split; [reflexivity|split; [reflexivity|split; [reflexivity|]]].
      intro j; rewrite andb_false_r; reflexivity.
Qed.

(** A render at index [k] keeps [single_inv] once the index is [k]. *)
Lemma render_single_inv (s s' : Single Img L) (k : nat) :
  lab_inv (lab s') -> k < n_images s' -> idx s' = k ->
  (forall j, nth j (seen (lab s')) false =
             (Nat.eqb j k && cell_built cf (lab s) k) || nth j (seen (lab s)) false) ->
  shown s' = (if cell_built cf (lab s) k then Some k else None) ->
  single_inv s'.
Proof.
  intros Hinv Hk Hid Hseen Hsh.
  split; [exact Hinv|split; [lia|]].
  intros i Hi; rewrite Hsh in Hi.
  case_eq (cell_built cf (lab s) k); intro Hc; rewrite Hc in Hi; [|discriminate].
  inversion Hi; subst i; split; [symmetry; exact Hid|].
  rewrite Hseen, Nat.eqb_refl, Hc; reflexivity.
Qed.

Lemma next_img_spec (s : Single Img L) :
  single_inv s ->
  exists s', next_img cf s = Ok s' /\ single_inv s' /\
    images (lab s') = images (lab s) /\ labels (lab s') = labels (lab s) /\
    auto_next s' = auto_next s /\
    (forall j, nth j (seen (lab s)) false = true ->
               nth j (seen (lab s')) false = true) /\
    (idx s < n_images s - 1 ->
       idx s' = idx s + 1 /\ rendered (lab s') = rendered (lab s) ++ [idx s + 1] /\
       (forall j, nth j (seen (lab s')) false =
                  (Nat.eqb j (idx s + 1) && cell_built cf (lab s) (idx s + 1))
                  || nth j (seen (lab s)) false) /\
       shown s' = (if cell_built cf (lab s) (idx s + 1) then Some (idx s + 1) else None)) /\
    (~ idx s < n_images s - 1 -> s' = s).
Proof.
  intros Hs; pose proof Hs as (Hinv & Hidx & Hshown); unfold next_img.
  destruct (Nat.ltb_spec (idx s) (n_images s - 1)) as [Hlt|Hge].
  - destruct (render_img_single_spec (with_idx s (idx s + 1)) (idx s + 1) Hinv
                ltac:(unfold n_images in *; simpl; lia))
      as (s' & E & Hinv' & Him & Hlb & Hid & Hau & Hr & Hseen & Hsh).
    rewrite E; exists s'; simpl in Him, Hlb, Hid, Hau, Hr, Hseen, Hsh.
    split; [reflexivity|].
    split; [apply (render_single_inv s s' (idx s + 1) Hinv');
             [unfold n_images in *; rewrite Him; lia|exact Hid|exact Hseen|exact Hsh]|].
    split; [exact Him|split; [exact Hlb|split; [exact Hau|split]]].
    + intros j Hj; rewrite Hseen, Hj, orb_true_r; reflexivity.
    + split; [intros _; split; [exact Hid|split; [exact Hr|split; [exact Hseen|exact Hsh]]]|].
      intro H; lia.
  - exists s; split; [reflexivity|].
    split; [exact Hs|].
    split; [reflexivity|split; [reflexivity|split; [reflexivity|split; [auto|]]]].
    split; [intro H; lia|reflexivity].
Qed.

Lemma prev_img_spec (s : Single Img L) :
  single_inv s ->
  exists s', prev_img cf s = Ok s' /\ single_inv s' /\
    images (lab s') = images (lab s) /\ labels (lab s') = labels (lab s) /\
    auto_next s' = auto_next s /\
    (forall j, nth j (seen (lab s)) false = true ->
               nth j (seen (lab s')) false = true) /\
    (0 < idx s ->
       idx s' = idx s - 1 /\ rendered (lab s') = rendered (lab s) ++ [idx s - 1] /\
       (forall j, nth j (seen (lab s')) false =
                  (Nat.eqb j (idx s - 1) && cell_built cf (lab s) (idx s - 1))
                  || nth j (seen (lab s)) false) /\
       shown s' = (if cell_built cf (lab s) (idx s - 1) then Some (idx s - 1) else None)) /\
    (~ 0 < idx s -> s' = s).
Proof.
  intros Hs; pose proof Hs as (Hinv & Hidx & Hshown); unfold prev_img.
  destruct (Nat.ltb_spec 0 (idx s)) as [Hlt|Hge].
  - destruct (render_img_single_spec (with_idx s (idx s - 1)) (idx s - 1) Hinv
                ltac:(unfold n_images in *; simpl; lia))
      as (s' & E & Hinv' & Him & Hlb & Hid & Hau & Hr & Hseen & Hsh).
    rewrite E; exists s'; simpl in Him, Hlb, Hid, Hau, Hr, Hseen, Hsh.
    split; [reflexivity|].
    split; [apply (render_single_inv s s' (idx s - 1) Hinv');
             [unfold n_images in *; rewrite Him; lia|exact Hid|exact Hseen|exact Hsh]|].
    split; [exact Him|split; [exact Hlb|split; [exact Hau|split]]].
    + intros j Hj; rewrite Hseen, Hj, orb_true_r; reflexivity.
    + split; [intros _; split; [exact Hid|split; [exact Hr|split; [exact Hseen|exact Hsh]]]|].
      intro H; lia.
  - exists s; split; [reflexivity|].
    split; [exact Hs|].
    split; [reflexivity|split; [reflexivity|split; [reflexivity|split; [auto|]]]].
    split; [intro H; lia|reflexivity].
Qed.

(** The cell callback of image [i]: the label write, then [next_img] on the
    object with the new labels when [i < n - 1] and auto-advance is on. *)
Lemma cell_callback_single_spec (i : nat) (label : L) (s : Single Img L) :
  single_inv s -> i < n_images s ->
  exists labels' s1,
    py_setitem (labels (lab s)) i label = Ok labels' /\
    length labels' = length (labels (lab s)) /\
    (forall j d, nth j labels' d = if Nat.eqb j i then label else nth j (labels (lab s)) d) /\
    s1 = {| lab := with_labels (lab s) labels'; idx := idx s;
            shown := shown s; auto_next := auto_next s |} /\
    single_inv s1 /\
    cell_callback_single cf i label s =
      (if (i <? n_images s - 1) && auto_next s then next_img cf s1 else Ok s1).
Proof.
  intros (Hinv & Hidx & Hshown) Hi; pose proof Hinv as (Hl & Hs & Hr).
  unfold n_images in Hi.
  destruct (py_setitem_in (labels (lab s)) i label ltac:(lia))
    as (labels' & E & Hlen & Hnth).
  exists labels', {| lab := with_labels (lab s) labels'; idx := idx s;
                     shown := shown s; auto_next := auto_next s |}.
  split; [exact E|]; split; [exact Hlen|]; split; [exact Hnth|].
  split; [reflexivity|].
  split.
  - split; [unfold lab_inv; simpl; split; [lia|split; [lia|exact Hr]]|].
    unfold n_images in *; simpl; split; [exact Hidx|exact Hshown].
  - unfold cell_callback_single; rewrite E; reflexivity.
Qed.

Lemma init_fields_spec (images0 : list Img) (dl : option (list L)) (py_none : L)
  (self : Labeler Img L) :
  init_fields py_none images0 dl = Ok self ->
  lab_inv self /\ images self = images0 /\ rendered self = [] /\
  seen self = repeat false (length images0) /\
  labels self = match dl with None => repeat py_none (length images0) | Some l => l end.
Proof.
  unfold init_fields.
  destruct (Nat.eqb_spec (length (match dl with
                                  | None => repeat py_none (length images0)
                                  | Some l => l end)) (length images0)) as [Heq|Hne];
    simpl; intro E; inversion E; subst; clear E.
  unfold lab_inv; simpl.
  split; [split; [exact Heq|split; [apply repeat_length|]]|].
  - intro j; rewrite nth_repeat; discriminate.
  - repeat split.
Qed.

Lemma ImageLabeler_single_spec (py_none : L) images0 dl (s : Single Img L) :
  ImageLabeler_single py_none cf images0 dl = Ok s ->
  single_inv s /\ idx s = 0 /\ auto_next s = true /\ rendered (lab s) = [0] /\
  images (lab s) = images0 /\
  labels (lab s) = match dl with None => repeat py_none (length images0) | Some l => l end /\
  (forall j, nth j (seen (lab s)) false = Nat.eqb j 0 && cell_built cf (lab s) 0) /\
  shown s = (if cell_built cf (lab s) 0 then Some 0 else None).
Proof.
  unfold ImageLabeler_single.
  destruct (init_fields py_none images0 dl) as [self|e] eqn:Ei; simpl; [|discriminate].
  destruct (init_fields_spec images0 dl py_none self Ei) as (Hinv & Him & Hr & Hseen & Hlb).
  unfold render_single, IntProgress_new.
  destruct (Z.ltb_spec (Z.of_nat (length (images self))) 1) as [Hz|Hpos]; simpl;
    [discriminate|].
  destruct (render_img_single_spec {| lab := self; idx := 0; shown := None; auto_next := true |} 0
              Hinv ltac:(unfold n_images; simpl; lia))
    as (s' & E & Hinv' & Him' & Hlb' & Hid & Hau & Hr' & Hseen' & Hsh').
  rewrite E; simpl; intro H; inversion H; subst s'; clear H.
  simpl in Him', Hlb', Hid, Hau, Hr', Hseen', Hsh'.
  assert (Hc : cell_built cf (lab s) 0 = cell_built cf self 0)
    by (apply cell_built_labels; exact Hlb').
  split; [apply (render_single_inv {| lab := self; idx := 0; shown := None; auto_next := true |}
                   s 0 Hinv'); [unfold n_images; rewrite Him'; lia|exact Hid|exact Hseen'|exact Hsh']|].
  rewrite Hid, Hau, Hr', Hr, Him', Hlb', Him, Hlb, Hc.
  split; [reflexivity|split; [reflexivity|split; [reflexivity|split; [reflexivity|]]]].
  split; [reflexivity|split; [|exact Hsh']].
  intro j; rewrite Hseen', Hseen, nth_repeat, orb_false_r; reflexivity.
Qed.

Lemma single_step_spec (s : Single Img L) (e : event) :
  single_inv s ->
  exists s', single_step cf s e = Ok s' /\ single_inv s' /\
    images (lab s') = images (lab s) /\
    (forall j, nth j (seen (lab s)) false = true ->
               nth j (seen (lab s')) false = true).
Proof.
  intro Hs; destruct e as [| |label|b]; simpl.
  - destruct (next_img_spec s Hs) as (s' & E & Hinv & Him & _ & _ & Hmono & _).
    exists s'; auto.
  - destruct (prev_img_spec s Hs) as (s' & E & Hinv & Him & _ & _ & Hmono & _).
    exists s'; auto.
  - destruct (shown s) as [i|] eqn:Hsh; [|exists s; auto].
    pose proof Hs as (_ & Hidx & Hshown).
    destruct (Hshown i Hsh) as (-> & _).
    destruct (cell_callback_single_spec (idx s) label s Hs Hidx)
      as (labels' & s1 & _ & _ & _ & Hs1 & Hinv1 & ->).
    destruct ((idx s <? n_images s - 1) && auto_next s).
    + destruct (next_img_spec s1 Hinv1) as (s' & E & Hinv & Him & _ & _ & Hmono & _).
      exists s'; subst s1; simpl in *; auto.
    + exists s1; subst s1; simpl; auto.
  - exists {| lab := lab s; idx := idx s; shown := shown s; auto_next := b |}.
    split; [reflexivity|split; [exact Hs|split; [reflexivity|auto]]].
Qed.

Lemma reach_single_inv (py_none : L) (s : Single Img L) :
  reach_single py_none cf s -> single_inv s.
Proof.
  induction 1 as [images0 dl s E|s e s' _ IH E].
  - apply (ImageLabeler_single_spec py_none images0 dl s E).
  - destruct (single_step_spec s e IH) as (s'' & E' & Hinv & _).
    rewrite E in E'; inversion E'; subst; exact Hinv.
Qed.

Lemma render_multi_loop_spec (is : list nat) (self : Labeler Img L) :
  lab_inv self -> (forall i, In i is -> i < length (images self)) ->
  exists self', render_multi_loop cf is self = Ok self' /\ lab_inv self' /\
    images self' = images self /\ labels self' = labels self /\
    rendered self' = rendered self ++ is /\
    (forall j, nth j (seen self') false =
               (existsb (Nat.eqb j) is && cell_built cf self j) || nth j (seen self) false).
Proof.
  revert self; induction is as [|i is IH]; intros self Hinv Hin; simpl.
  - exists self; split; [reflexivity|split; [exact Hinv|]].
    split; [reflexivity|split; [reflexivity|split; [rewrite app_nil_r; reflexivity|]]].
    intro j; reflexivity.
  - destruct (render_img_multi_spec self i Hinv (Hin i (or_introl eq_refl)))
      as (self1 & -> & Hinv1 & Him1 & Hlb1 & Hr1 & Hseen1); simpl.
    destruct (IH self1 Hinv1 ltac:(intros k Hk; rewrite Him1; apply Hin; right; exact Hk))
      as (self' & -> & Hinv' & Him' & Hlb' & Hr' & Hseen').
    exists self'; split; [reflexivity|split; [exact Hinv'|]].
    rewrite Him', Hlb', Hr', Hr1, <- app_assoc, Him1, Hlb1.
    split; [reflexivity|split; [reflexivity|split; [reflexivity|]]].
    intro j; rewrite Hseen', Hseen1, (cell_built_labels self1 self j Hlb1).
    destruct (Nat.eqb j i) eqn:Hji; simpl.
    + apply Nat.eqb_eq in Hji; subst j.
      destruct (cell_built cf self i), (existsb (Nat.eqb i) is), (nth i (seen self) false);
        reflexivity.
    + destruct (cell_built cf self j), (existsb (Nat.eqb j) is), (nth j (seen self) false);
        reflexivity.
Qed.

Lemma ImageLabeler_multi_spec (py_none : L) images0 dl (self : Labeler Img L) :
  ImageLabeler_multi py_none cf images0 dl = Ok self ->
  lab_inv self /\ images self = images0 /\
  labels self = match dl with None => repeat py_none (length images0) | Some l => l end /\
  rendered self = seq 0 (length images0) /\
  (forall j, nth j (seen self) false = (j <? length images0) && cell_built cf self j).
Proof.
  unfold ImageLabeler_multi.
  destruct (init_fields py_none images0 dl) as [self0|e] eqn:Ei; simpl; [|discriminate].
  destruct (init_fields_spec images0 dl py_none self0 Ei) as (Hinv & Him & Hr & Hseen & Hlb).
  unfold render_multi.
  destruct (render_multi_loop_spec (seq 0 (length (images self0))) self0 Hinv
              ltac:(intros i Hi; apply in_seq in Hi; lia))
    as (self' & -> & Hinv' & Him' & Hlb' & Hr' & Hseen').
  intro H; inversion H; subst self'; clear H.
  split; [exact Hinv'|].
  rewrite Him', Hlb', Hr', Hr, Him, Hlb.
  split; [reflexivity|split; [reflexivity|split; [reflexivity|]]].
  intro j; rewrite Hseen', Hseen, nth_repeat, orb_false_r, existsb_eqb_seq.
  rewrite (cell_built_labels self0 self j ltac:(symmetry; exact Hlb')), Him; reflexivity.
Qed.

Lemma cell_callback_multi_spec (i : nat) (label : L) (self : Labeler Img L) :
  lab_inv self -> i < length (images self) ->
  exists self', cell_callback_multi i label self = Ok self' /\ lab_inv self' /\
    images self' = images self /\ seen self' = seen self /\
    rendered self' = rendered self /\
    length (labels self') = length (labels self) /\
    (forall j d, nth j (labels self') d =
                 if Nat.eqb j i then label else nth j (labels self) d).
Proof.
  intros Hinv Hi; pose proof Hinv as (Hl & Hs & Hr).
  destruct (py_setitem_in (labels self) i label ltac:(lia))
    as (labels' & E & Hlen & Hnth).
  unfold cell_callback_multi; rewrite E; simpl.
  eexists; split; [reflexivity|].
  split; [unfold lab_inv; simpl; split; [lia|split; [lia|exact Hr]]|].
  repeat split; auto.
Qed.

Lemma reach_multi_inv (py_none : L) (self : Labeler Img L) :
  reach_multi py_none cf self ->
  lab_inv self /\ rendered self = seq 0 (length (images self)).
Proof.
  induction 1 as [images0 dl self E|self i label self' _ IH Hi E].
  - destruct (ImageLabeler_multi_spec py_none images0 dl self E)
      as (Hinv & Him & _ & Hr & _).
    rewrite Him; split; assumption.
  - destruct IH as (IH & Hr).
    destruct (cell_callback_multi_spec i label self IH Hi)
      as (self'' & E' & Hinv & Him & _ & Hr' & _).
    rewrite E in E'; inversion E'; subst.
    rewrite Him, Hr'; split; assumption.
Qed.

(** When [new] returns on every value, every render displays a cell and
    marks its image seen. *)
Lemma reach_single_total (py_none : L) (s : Single Img L) :
  (forall v, builds_cell cf v = true) -> reach_single py_none cf s ->
  shown s = Some (idx s) /\
  (forall j, In j (rendered (lab s)) -> nth j (seen (lab s)) false = true).
Proof.
  intro Ht; induction 1 as [images0 dl s E|s e s' Hr IH E].
  - destruct (ImageLabeler_single_spec py_none images0 dl s E)
      as ((Hinv & Hidx & _) & Hid & _ & Hrd & _ & _ & Hseen & Hsh).
    assert (Hc : cell_built cf (lab s) 0 = true).
    { apply cell_built_total; [exact Ht|].
      destruct Hinv as (Hl & _); unfold n_images in Hidx; lia. }
    rewrite Hsh, Hc, Hid; split; [reflexivity|].
    intros j Hj; rewrite Hrd in Hj; destruct Hj as [<-|[]].
    rewrite Hseen, Hc; reflexivity.
  - pose proof (reach_single_inv py_none s Hr) as Hs.
    destruct IH as (Hsh & Hrs).
    assert (Hnav : forall t t' : Single Img L, single_inv t ->
              (forall j, In j (rendered (lab t)) -> nth j (seen (lab t)) false = true) ->
              shown t = Some (idx t) ->
              next_img cf t = Ok t' \/ prev_img cf t = Ok t' ->
              shown t' = Some (idx t') /\
              (forall j, In j (rendered (lab t')) -> nth j (seen (lab t')) false = true)).
    { intros t t' Ht0 Hrt Hst [En|Ep].
      - pose proof Ht0 as ((Hl & _) & Hidx & _).
        destruct (next_img_spec t Ht0)
          as (t1 & Et & _ & _ & _ & _ & Hmono & Hadv & Hstay).
        rewrite En in Et; inversion Et; subst t1; clear Et.
        destruct (Nat.ltb_spec (idx t) (n_images t - 1)) as [Hlt|Hge].
        + destruct (Hadv Hlt) as (Hid & Hr' & Hseen & Hsh').
          rewrite (cell_built_total (lab t) (idx t + 1) Ht ltac:(unfold n_images in *; lia))
            in Hseen, Hsh'.
          rewrite Hsh', Hid; split; [reflexivity|].
          intros j Hj; rewrite Hr', in_app_iff in Hj; destruct Hj as [Hj|[<-|[]]].
          * apply Hmono, Hrt, Hj.
          * rewrite Hseen, Nat.eqb_refl; reflexivity.
        + rewrite (Hstay ltac:(lia)); split; assumption.
      - pose proof Ht0 as ((Hl & _) & Hidx & _).
        destruct (prev_img_spec t Ht0)
          as (t1 & Et & _ & _ & _ & _ & Hmono & Hadv & Hstay).
        rewrite Ep in Et; inversion Et; subst t1; clear Et.
        destruct (Nat.ltb_spec 0 (idx t)) as [Hlt|Hge].
        + destruct (Hadv Hlt) as (Hid & Hr' & Hseen & Hsh').
          rewrite (cell_built_total (lab t) (idx t - 1) Ht ltac:(unfold n_images in *; lia))
            in Hseen, Hsh'.
          rewrite Hsh', Hid; split; [reflexivity|].
          intros j Hj; rewrite Hr', in_app_iff in Hj; destruct Hj as [Hj|[<-|[]]].
          * apply Hmono, Hrt, Hj.
          * rewrite Hseen, Nat.eqb_refl; reflexivity.
        + rewrite (Hstay ltac:(lia)); split; assumption. }
    destruct e as [| |label|b]; simpl in E.
    + exact (Hnav s s' Hs Hrs Hsh (or_introl E)).
    + exact (Hnav s s' Hs Hrs Hsh (or_intror E)).
    + rewrite Hsh in E.
      pose proof Hs as (_ & Hidx & _).
      destruct (cell_callback_single_spec (idx s) label s Hs Hidx)
        as (labels' & s1 & _ & _ & _ & Hs1 & Hinv1 & E1).
      rewrite E1 in E.
      destruct ((idx s <? n_images s - 1) && auto_next s).
      * apply (Hnav s1 s' Hinv1); [subst s1; exact Hrs|subst s1; exact Hsh|left; exact E].
      * inversion E; subst s1 s'; split; [exact Hsh|exact Hrs].
    + inversion E; subst s'; split; [exact Hsh|exact Hrs].
Qed.

Lemma reach_multi_total (py_none : L) (self : Labeler Img L) :
  (forall v, builds_cell cf v = true) -> reach_multi py_none cf self ->
  forall j, j < length (images self) -> nth j (seen self) false = true.
Proof.
  intro Ht; induction 1 as [images0 dl self E|self i label self' Hr IH Hi E].
  - destruct (ImageLabeler_multi_spec py_none images0 dl self E)
      as ((Hl & _) & Him & _ & _ & Hseen).
    intros j Hj; rewrite Hseen, cell_built_total by (assumption || lia).
    rewrite <- Him; apply andb_true_intro; split; [apply Nat.ltb_lt; exact Hj|reflexivity].
  - destruct (reach_multi_inv py_none self Hr) as (Hinv & _).
    destruct (cell_callback_multi_spec i label self Hinv Hi)
      as (self'' & E' & _ & Him & Hseen & _).
    rewrite E in E'; inversion E'; subst self''.
    intros j Hj; rewrite Hseen; apply IH; rewrite <- Him; exact Hj.
Qed.

End Invariants.

Lemma py_setitem_nth_error {A : Type} (l l' : list A) (i : nat) (x : A) :
  py_setitem l i x = Ok l' ->
  forall j, nth_error l' j = if Nat.eqb j i then Some x else nth_error l j.
Proof.
  revert i l'; induction l as [|y l IH]; intros [|i] l' E j; simpl in E.
  - discriminate.
  - discriminate.
  - inversion E; subst; destruct j; reflexivity.
  - destruct (py_setitem l i x) as [r|e] eqn:Er; simpl in E; [|discriminate].
    inversion E; subst; destruct j as [|j]; simpl; [reflexivity|].
    apply (IH i r Er j).
Qed.

Lemma init_fields_ok {Img L : Type} (py_none : L) (images0 : list Img) dl :
  (dl = None \/ exists l, dl = Some l /\ length l = length images0) ->
  exists self, init_fields py_none images0 dl = Ok self.
Proof.
  unfold init_fields; intros [->|(l & -> & Hl)].
  - rewrite repeat_length, Nat.eqb_refl; simpl; eauto.
  - rewrite Hl, Nat.eqb_refl; simpl; eauto.
Qed.
Section Claims.
Context {Img L W : Type} (cf : L -> result W).

(** C1: in single mode every reachable state has its index in [0, n-1];
    Next adds exactly 1 when the index is below n-1 and otherwise leaves it
    unchanged; Previous subtracts exactly 1 when the index is above 0 and
    otherwise leaves it unchanged. *)
Theorem single_nav_index_bounds (py_none : L) (s : Single Img L) :
  reach_single py_none cf s ->
  0 <= idx s <= n_images s - 1 /\
  (exists s', single_step cf s Next = Ok s' /\
     (idx s < n_images s - 1 -> idx s' = idx s + 1) /\
     (~ idx s < n_images s - 1 -> idx s' = idx s)) /\
  (exists s', single_step cf s Prev = Ok s' /\
     (0 < idx s -> idx s' = idx s - 1) /\
     (~ 0 < idx s -> idx s' = idx s)).
Proof.
  intro Hr; pose proof (reach_single_inv cf py_none s Hr) as Hs.
  pose proof Hs as (_ & Hidx & _).
  split; [lia|split].
  - destruct (next_img_spec cf s Hs) as (s' & E & _ & _ & _ & _ & _ & Hadv & Hstay).
    exists s'; simpl; split; [exact E|split].
    + intro H; apply (Hadv H).
    + intro H; rewrite (Hstay H); reflexivity.
  - destruct (prev_img_spec cf s Hs) as (s' & E & _ & _ & _ & _ & _ & Hadv & Hstay).
    exists s'; simpl; split; [exact E|split].
    + intro H; apply (Hadv H).
    + intro H; rewrite (Hstay H); reflexivity.
Qed.

(** C2: the input cell callback of image [i] stores the label at index [i]
    and leaves every other label, the image list and the number of labels
    as they were, in single mode (auto-advance included) and in multi
    mode. *)
Theorem cell_callback_label_frame (py_none : L) :
  (forall (s : Single Img L) i label,
     reach_single py_none cf s -> i < n_images s ->
     exists s', cell_callback_single cf i label s = Ok s' /\
       nth_error (labels (lab s')) i = Some label /\
       (forall j, j <> i -> nth_error (labels (lab s')) j = nth_error (labels (lab s)) j) /\
       images (lab s') = images (lab s) /\
       length (labels (lab s')) = length (labels (lab s))) /\
  (forall (self : Labeler Img L) i label,
     reach_multi py_none cf self -> i < length (images self) ->
     exists self', cell_callback_multi i label self = Ok self' /\
       nth_error (labels self') i = Some label /\
       (forall j, j <> i -> nth_error (labels self') j = nth_error (labels self) j) /\
       images self' = images self /\
       length (labels self') = length (labels self)).
Proof.
  split.
  - intros s i label Hr Hi.
    pose proof (reach_single_inv cf py_none s Hr) as Hs.
    destruct (cell_callback_single_spec cf i label s Hs Hi)
      as (labels' & s1 & Eset & Hlen & _ & Hs1 & Hinv1 & ->).
    pose proof (py_setitem_nth_error _ _ _ _ Eset) as Hnth.
    assert (Hfin : forall s', labels (lab s') = labels' -> images (lab s') = images (lab s) ->
              nth_error (labels (lab s')) i = Some label /\
              (forall j, j <> i -> nth_error (labels (lab s')) j = nth_error (labels (lab s)) j) /\
              images (lab s') = images (lab s) /\
              length (labels (lab s')) = length (labels (lab s))).
    { intros s' -> Him; split; [rewrite Hnth, Nat.eqb_refl; reflexivity|].
      split; [|split; [exact Him|exact Hlen]].
      intros j Hj; rewrite Hnth; apply Nat.eqb_neq in Hj; rewrite Hj; reflexivity. }
    destruct ((i <? n_images s - 1) && auto_next s).
    + destruct (next_img_spec cf s1 Hinv1) as (s' & E & _ & Him & Hlb & _).
      exists s'; split; [exact E|]; subst s1; simpl in *; apply Hfin; assumption.
    + exists s1; split; [reflexivity|]; subst s1; apply Hfin; reflexivity.
  - intros self i label Hr Hi.
    destruct (reach_multi_inv cf py_none self Hr) as (Hinv & _).
    destruct (cell_callback_multi_spec i label self Hinv Hi)
      as (self' & E & _ & Him & _ & _ & Hlen & _).
    exists self'; split; [exact E|].
    unfold cell_callback_multi in E.
    destruct (py_setitem (labels self) i label) as [l'|e] eqn:Eset; simpl in E;
      [|discriminate].
    inversion E; subst self'; simpl in *.
    pose proof (py_setitem_nth_error _ _ _ _ Eset) as Hnth.
    split; [rewrite Hnth, Nat.eqb_refl; reflexivity|].
    split; [|split; [reflexivity|exact Hlen]].
    intros j Hj; rewrite Hnth; apply Nat.eqb_neq in Hj; rewrite Hj; reflexivity.
Qed.

(** C3 (amended): in single mode the callback of the displayed cell, the
    cell of image [i], which is the current image.  With auto-advance on and
    [i < n - 1] it moves the current index to [i + 1] and renders image
    [i + 1]; that image is marked seen, and its cell displayed, exactly when
    [new] returns on its label (a raise inside [with img_output:] is
    suppressed and leaves the flag as it was).  With auto-advance off, or at
    [i = n - 1], the current index is unchanged. *)
Theorem cell_callback_auto_advance (py_none : L) (s : Single Img L) (i : nat) (label : L) :
  reach_single py_none cf s -> shown s = Some i ->
  i = idx s /\
  exists s', single_step cf s (Cell label) = Ok s' /\
    (auto_next s = true -> i < n_images s - 1 ->
       idx s' = i + 1 /\
       rendered (lab s') = rendered (lab s) ++ [i + 1] /\
       nth (i + 1) (seen (lab s')) false =
         builds_cell cf (nth (i + 1) (labels (lab s)) py_none)
         || nth (i + 1) (seen (lab s)) false /\
       shown s' = (if builds_cell cf (nth (i + 1) (labels (lab s)) py_none)
                   then Some (i + 1) else None)) /\
    (auto_next s = false \/ i = n_images s - 1 -> idx s' = idx s).
Proof.
  intros Hr Hsh; pose proof (reach_single_inv cf py_none s Hr) as Hs.
  pose proof Hs as ((Hl & _) & Hidx & Hshown).
  destruct (Hshown i Hsh) as (-> & _).
  split; [reflexivity|].
  unfold single_step; rewrite Hsh.
  destruct (cell_callback_single_spec cf (idx s) label s Hs Hidx)
    as (labels' & s1 & _ & Hlen & Hnth & Hs1 & Hinv1 & ->).
  assert (Hn1 : n_images s1 = n_images s) by (subst s1; reflexivity).
  assert (Hi1 : idx s1 = idx s) by (subst s1; reflexivity).
  assert (Hr1 : rendered (lab s1) = rendered (lab s)) by (subst s1; reflexivity).
  assert (Hsn1 : seen (lab s1) = seen (lab s)) by (subst s1; reflexivity).
  destruct (Nat.ltb_spec (idx s) (n_images s - 1)) as [Hlt|Hge];
    destruct (auto_next s) eqn:Ha; simpl.
  - destruct (next_img_spec cf s1 Hinv1) as (s' & E & _ & _ & _ & _ & _ & Hadv & _).
    exists s'; split; [exact E|].
    rewrite Hn1, Hi1 in Hadv.
    destruct (Hadv Hlt) as (Hid & Hr' & Hseen & Hsh').
    assert (Hc : cell_built cf (lab s1) (idx s + 1)
                 = builds_cell cf (nth (idx s + 1) (labels (lab s)) py_none)).
    { rewrite (cell_built_nth cf (lab s1) (idx s + 1) py_none).
      - subst s1; simpl; rewrite Hnth.
        replace (Nat.eqb (idx s + 1) (idx s)) with false
          by (symmetry; apply Nat.eqb_neq; lia).
        reflexivity.
      - subst s1; simpl; unfold n_images in Hlt; lia. }
    split.
    + intros _ _; rewrite Hseen, Hsh', Hc, Nat.eqb_refl, Hsn1, Hr1 in *.
      split; [exact Hid|split; [exact Hr'|split; reflexivity]].
    + intros [H|H]; [discriminate|lia].
  - exists s1; split; [reflexivity|]; split; [discriminate|]; subst s1; reflexivity.
  - exists s1; split; [reflexivity|]; split; [intros _ H; lia|]; subst s1; reflexivity.
  - exists s1; split; [reflexivity|]; split; [intros _ H; lia|]; subst s1; reflexivity.
Qed.

End Claims.

(** C3, as first stated: with the class selector over ['cat', 'dog'] and
    default 'bird', image 1 labelled [None] makes [new] raise (the default
    is no option of the ToggleButtons).  The callback of image 0's cell with
    auto-advance on moves to image 1, which stays unseen. *)
Lemma cell_callback_auto_advance_unseen :
  MultiClassInputCellFactory_init [PStr "cat"; PStr "dog"] (PStr "bird")
    = Ok {| mc_classes := [PStr "cat"; PStr "dog"]; mc_default_class := PStr "bird" |} /\
  exists s s' : Single unit pyval,
    ImageLabeler_single PNone
      (mc_new {| mc_classes := [PStr "cat"; PStr "dog"]; mc_default_class := PStr "bird" |})
      [tt; tt] (Some [PStr "cat"; PNone]) = Ok s /\
    shown s = Some 0 /\ auto_next s = true /\
    single_step
      (mc_new {| mc_classes := [PStr "cat"; PStr "dog"]; mc_default_class := PStr "bird" |})
      s (Cell (PStr "dog")) = Ok s' /\
    idx s' = 1 /\ nth 1 (seen (lab s')) false = false.
Proof.
  split; [reflexivity|].
  do 2 eexists; split; [reflexivity|].
  split; [reflexivity|split; [reflexivity|split; [reflexivity|]]].
  split; reflexivity.
Qed.
(** ** Input cell factories *)

Lemma pyval_eqb_true (a b : pyval) : pyval_eqb a b = true <-> a = b.
Proof.
  destruct a, b; simpl; split; intro H; try discriminate; try reflexivity.
  - apply Z.eqb_eq in H; subst; reflexivity.
  - inversion H; apply Z.eqb_refl.
  - apply String.eqb_eq in H; subst; reflexivity.
  - inversion H; apply String.eqb_refl.
Qed.

Lemma py_in_In (v : pyval) (l : list pyval) : py_in v l = true <-> In v l.
Proof.
  unfold py_in; rewrite existsb_exists; split.
  - intros (x & Hx & Heq); apply pyval_eqb_true in Heq; subst; exact Hx.
  - intro H; exists v; split; [exact H|apply pyval_eqb_true; reflexivity].
Qed.

Definition bi_ok (w : BoundedIntText) : Prop :=
  bi_min w = 0%Z /\ bi_max w = 100%Z /\ (0 <= bi_value w <= 100)%Z.

Definition cell_ok (c : ValCell) : Prop :=
  bi_ok (tp_widget c) /\ bi_ok (fp_widget c) /\ bi_ok (fn_widget c).

Lemma bi_clamp_range (lo hi v : Z) :
  (lo <= hi)%Z -> (lo <= bi_clamp lo hi v <= hi)%Z.
Proof.
  intro H; unfold bi_clamp.
  destruct (Z.gtb_spec lo v), (Z.ltb_spec hi v); simpl; lia.
Qed.

Lemma bi_set_ok (w : BoundedIntText) (v : Z) : bi_ok w -> bi_ok (bi_set w v).
Proof.
  intros (Hmin & Hmax & _); unfold bi_ok, bi_set; simpl.
  rewrite Hmin, Hmax; split; [reflexivity|split; [reflexivity|]].
  apply bi_clamp_range; lia.
Qed.

Lemma dv_new_ok (value : option ValResult) : cell_ok (dv_new value).
Proof.
  unfold dv_new, cell_ok, bi_ok, BoundedIntText_new.
  destruct value as [v|]; simpl; repeat split; try apply bi_clamp_range; lia.
Qed.

Lemma dv_run_ok (c : ValCell) (es : list ValEvent) :
  cell_ok c ->
  cell_ok (fst (dv_run c es)) /\
  forall r, In r (snd (dv_run c es)) ->
    (0 <= tp r <= 100 /\ 0 <= fp r <= 100 /\ 0 <= fn r <= 100)%Z.
Proof.
  revert c; induction es as [|e es IH]; intros c Hc; simpl.
  - split; [exact Hc|intros r []].
  - assert (Hstep : cell_ok (fst (dv_step c e)) /\
              forall r, In r (snd (dv_step c e)) ->
                (0 <= tp r <= 100 /\ 0 <= fp r <= 100 /\ 0 <= fn r <= 100)%Z).
    { destruct Hc as (Ht & Hp & Hn).
      destruct e; simpl.
      - split; [split; [apply bi_set_ok; exact Ht|split; assumption]|intros r []].
      - split; [split; [assumption|split; [apply bi_set_ok; exact Hp|assumption]]|intros r []].
      - split; [split; [assumption|split; [assumption|apply bi_set_ok; exact Hn]]|intros r []].
      - split; [split; [exact Ht|split; [exact Hp|exact Hn]]|].
        intros r [<-|[]]; simpl.
        destruct Ht as (_ & _ & Ht), Hp as (_ & _ & Hp), Hn as (_ & _ & Hn).
        split; [exact Ht|split; [exact Hp|exact Hn]]. }
    destruct (dv_step c e) as [c1 out1]; simpl in Hstep.
    destruct Hstep as (Hc1 & Hout1).
    destruct (IH c1 Hc1) as (Hc2 & Hout2).
    destruct (dv_run c1 es) as [c2 out2]; simpl in *.
    split; [exact Hc2|].
    intros r Hr; apply in_app_or in Hr; destruct Hr; auto.
Qed.

(** C4: the class selector built by [new] calls [result_callback] with the
    newly selected class whenever the selection changes (and not at all when
    the clicked class is already selected); the validation cell calls it with
    [ValResult(tp, fp, fn)] read from its three counters when Submit is
    clicked, and editing a counter calls nothing. *)
Theorem input_cell_result_callback :
  (forall (f : MultiClassInputCellFactory) (value : pyval) (w : ToggleButtons),
     mc_new f value = Ok w -> tb_options w = mc_classes f) /\
  (forall (w : ToggleButtons) (c : pyval), In c (tb_options w) ->
     (c <> tb_value w ->
        tb_select w c = Ok ({| tb_options := tb_options w; tb_value := c |}, [c])) /\
     (c = tb_value w -> tb_select w c = Ok (w, []))) /\
  (forall (value : option ValResult) (es : list ValEvent) (e : ValEvent),
     let c := fst (dv_run (dv_new value) es) in
     snd (dv_step c e) =
       match e with
       | ClickSubmit => [{| tp := bi_value (tp_widget c);
                            fp := bi_value (fp_widget c);
                            fn := bi_value (fn_widget c) |}]
       | _ => []
       end).
Proof.
  split; [|split].
  - intros f value w; unfold mc_new, ToggleButtons_new.
    destruct (py_in _ _); intro E; inversion E; reflexivity.
  - intros w c Hin; apply py_in_In in Hin; unfold tb_select; rewrite Hin; simpl.
    split.
    + intro Hne; destruct (pyval_eqb c (tb_value w)) eqn:Heq; [|reflexivity].
      apply pyval_eqb_true in Heq; contradiction.
    + intro Heq; rewrite <- Heq.
      assert (Hr : pyval_eqb c c = true) by (apply pyval_eqb_true; reflexivity).
      rewrite Hr; reflexivity.
  - intros value es e; destruct e; reflexivity.
Qed.

(** C5: every [ValResult] passed to [result_callback] by a validation cell,
    whatever its initial value and whatever the user typed, has each of
    [tp], [fp] and [fn] in [0, 100]. *)
Theorem val_result_bounded (value : option ValResult) (es : list ValEvent) (r : ValResult) :
  In r (snd (dv_run (dv_new value) es)) ->
  (0 <= tp r <= 100 /\ 0 <= fp r <= 100 /\ 0 <= fn r <= 100)%Z.
Proof.
  apply (proj2 (dv_run_ok (dv_new value) es (dv_new_ok value))).
Qed.
(** ** Construction and the seen flags *)

Section ConstructionClaims.
Context {Img L W : Type} (cf : L -> result W).

(** C6 (amended): multi-mode construction over [n] images (with labels of
    the right length) renders each image once, in order [0, ..., n-1], and
    keeps the labels it was given.  Image [i] gets its own cell, and is
    marked seen, exactly when [new] returns on its label; a raise inside its
    [with img_output:] block is suppressed.  So [all_seen] holds right after
    construction exactly when [new] returns on every image's label. *)
Theorem multi_mode_renders_all (py_none : L) (images0 : list Img) dl :
  (dl = None \/ exists l, dl = Some l /\ length l = length images0) ->
  exists self : Labeler Img L, ImageLabeler_multi py_none cf images0 dl = Ok self /\
    rendered self = seq 0 (length images0) /\
    labels self = match dl with None => repeat py_none (length images0) | Some l => l end /\
    (forall i, i < length images0 ->
       nth i (seen self) false = builds_cell cf (nth i (labels self) py_none)) /\
    (all_seen self = true <->
       forall i, i < length images0 -> builds_cell cf (nth i (labels self) py_none) = true).
Proof.
  intro Hdl.
  destruct (init_fields_ok py_none images0 dl Hdl) as (self0 & Ei).
  destruct (init_fields_spec images0 dl py_none self0 Ei) as (Hinv0 & Him0 & _).
  destruct (render_multi_loop_spec cf (seq 0 (length (images self0))) self0 Hinv0
              ltac:(intros i Hi; apply in_seq in Hi; lia)) as (self & Eloop & _).
  assert (E : ImageLabeler_multi py_none cf images0 dl = Ok self).
  { unfold ImageLabeler_multi; rewrite Ei; exact Eloop. }
  destruct (ImageLabeler_multi_spec cf py_none images0 dl self E)
    as ((Hl & Hs & _) & Him & Hlb & Hr & Hseen).
  assert (Hall : forall i, i < length images0 ->
            nth i (seen self) false = builds_cell cf (nth i (labels self) py_none)).
  { intros i Hi; rewrite Hseen, (cell_built_nth cf self i py_none) by (rewrite Hl, Him; exact Hi).
    apply Nat.ltb_lt in Hi; rewrite Hi; reflexivity. }
  exists self; split; [exact E|split; [exact Hr|split; [exact Hlb|split; [exact Hall|]]]].
  rewrite all_seen_iff by exact Hs; rewrite Him.
  split; intros H i Hi; [rewrite <- (Hall i Hi)|rewrite (Hall i Hi)]; apply H; exact Hi.
Qed.


(** C8: [__init__] with [default_labels=None] starts from [n] [None] labels
    and [n] false seen flags (the render that follows leaves the labels as
    they are); a [default_labels] of another length raises [AssertionError]
    in both modes; one of the right length becomes the labels array as it
    is. *)
Theorem init_labels_and_seen (py_none : L) (images0 : list Img) :
  (exists self : Labeler Img L, init_fields py_none images0 None = Ok self /\
     labels self = repeat py_none (length images0) /\
     seen self = repeat false (length images0)) /\
  (forall s : Single Img L, ImageLabeler_single py_none cf images0 None = Ok s ->
     labels (lab s) = repeat py_none (length images0)) /\
  (forall self : Labeler Img L, ImageLabeler_multi py_none cf images0 None = Ok self ->
     labels self = repeat py_none (length images0)) /\
  (forall dl : list L, length dl <> length images0 ->
     init_fields py_none images0 (Some dl) = Raise AssertionError /\
     ImageLabeler_single py_none cf images0 (Some dl) = Raise AssertionError /\
     ImageLabeler_multi py_none cf images0 (Some dl) = Raise AssertionError) /\
  (forall dl : list L, length dl = length images0 ->
     exists self, init_fields py_none images0 (Some dl) = Ok self /\
       labels self = dl /\ seen self = repeat false (length images0)).
Proof.
  split; [|split; [|split; [|split]]].
  - destruct (init_fields_ok py_none images0 None (or_introl eq_refl)) as (self & E).
    destruct (init_fields_spec images0 None py_none self E) as (_ & _ & _ & Hs & Hl).
    exists self; auto.
  - intros s E; apply (ImageLabeler_single_spec cf py_none images0 None s E).
  - intros self E; apply (ImageLabeler_multi_spec cf py_none images0 None self E).
  - intros dl Hne.
    assert (E : init_fields py_none images0 (Some dl) = Raise AssertionError).
    { unfold init_fields; apply Nat.eqb_neq in Hne; rewrite Hne; reflexivity. }
    unfold ImageLabeler_single, ImageLabeler_multi; rewrite E; auto.
  - intros dl Heq.
    destruct (init_fields_ok py_none images0 (Some dl)
                (or_intror (ex_intro _ dl (conj eq_refl Heq)))) as (self & E).
    destruct (init_fields_spec images0 (Some dl) py_none self E) as (_ & _ & _ & Hs & Hl).
    exists self; auto.
Qed.

End ConstructionClaims.

(** C6, as first stated: with the class selector over ['cat', 'dog'] and
    default 'bird', multi-mode construction over two images labelled 'cat'
    and [None] renders both, but [new] raises on [None], so image 1 has no
    cell, stays unseen, and [all_seen] is False. *)
Lemma multi_mode_cell_raises_unseen :
  MultiClassInputCellFactory_init [PStr "cat"; PStr "dog"] (PStr "bird")
    = Ok {| mc_classes := [PStr "cat"; PStr "dog"]; mc_default_class := PStr "bird" |} /\
  exists self : Labeler unit pyval,
    ImageLabeler_multi PNone
      (mc_new {| mc_classes := [PStr "cat"; PStr "dog"]; mc_default_class := PStr "bird" |})
      [tt; tt] (Some [PStr "cat"; PNone]) = Ok self /\
    rendered self = [0; 1] /\ nth 1 (seen self) false = false /\ all_seen self = false.
Proof.
  split; [reflexivity|].
  eexists; split; [reflexivity|].
  split; [reflexivity|split; reflexivity].
Qed.

(** ** Initial values of the input cells *)

Lemma bi_clamp_eq (lo hi v : Z) :
  (lo <= hi)%Z -> bi_clamp lo hi v = Z.min (Z.max v lo) hi.
Proof.
  intro H; unfold bi_clamp.
  destruct (Z.gtb_spec lo v), (Z.ltb_spec hi v); simpl; lia.
Qed.

(** C9 (counterexample): with classes ["cat"; "dog"] and the truthy default
    "bird", the factory's default class is "bird", yet [new] with no value
    does not initialise the selection to it: the selector rejects a value
    outside its options and [new] raises. *)
Lemma mc_default_outside_classes_raises :
  MultiClassInputCellFactory_init [PStr "cat"; PStr "dog"] (PStr "bird") =
    Ok {| mc_classes := [PStr "cat"; PStr "dog"]; mc_default_class := PStr "bird" |} /\
  mc_new {| mc_classes := [PStr "cat"; PStr "dog"]; mc_default_class := PStr "bird" |} PNone
    = Raise TraitError.
Proof. split; reflexivity. Qed.

(** C9 (amended): the default class is the constructor's [default] when it
    is truthy and [classes[0]] otherwise; [new] selects [value] when it is not
    None and is one of the classes; otherwise it selects the default class
    when that is one of the classes, and raises when it is not. *)
Theorem mc_new_initial_selection (classes : list pyval) (default value : pyval)
  (f : MultiClassInputCellFactory) :
  MultiClassInputCellFactory_init classes default = Ok f ->
  mc_classes f = classes /\
  mc_default_class f = (if py_truthy default then default else nth 0 classes PNone) /\
  (is_none value = false -> In value classes ->
     exists w, mc_new f value = Ok w /\ tb_value w = value) /\
  (is_none value = true \/ ~ In value classes ->
     (In (mc_default_class f) classes ->
        exists w, mc_new f value = Ok w /\ tb_value w = mc_default_class f) /\
     (~ In (mc_default_class f) classes -> mc_new f value = Raise TraitError)).
Proof.
  intro E.
  assert (Hf : mc_classes f = classes /\
               mc_default_class f = (if py_truthy default then default else nth 0 classes PNone)).
  { unfold MultiClassInputCellFactory_init in E.
    destruct (py_truthy default).
    - inversion E; split; reflexivity.
    - destruct classes as [|c0 cs]; simpl in E; [discriminate|].
      inversion E; split; reflexivity. }
  destruct Hf as (Hc & Hd); split; [exact Hc|split; [exact Hd|split]].
  - intros Hnn Hin.
    unfold mc_new, ToggleButtons_new; rewrite Hc, Hnn.
    rewrite (proj2 (py_in_In value classes) Hin); simpl.
    rewrite (proj2 (py_in_In value classes) Hin).
    eexists; split; reflexivity.
  - intros Hsel.
    assert (Hpick : is_none value || negb (py_in value classes) = true).
    { destruct Hsel as [H|H]; [rewrite H; reflexivity|].
      destruct (py_in value classes) eqn:Hp; [apply py_in_In in Hp; contradiction|].
      apply orb_true_r. }
    unfold mc_new, ToggleButtons_new; rewrite Hc, Hpick.
    split.
    + intro Hin; rewrite (proj2 (py_in_In _ classes) Hin).
      eexists; split; reflexivity.
    + intro Hnin; destruct (py_in (mc_default_class f) classes) eqn:Hp; [|reflexivity].
      apply py_in_In in Hp; contradiction.
Qed.

(** C10 (counterexample): [new] with [ValResult(tp=150, fp=0, fn=0)]
    initialises the true-positive counter to 100, not 150. *)
Lemma dv_new_out_of_range_clamped :
  bi_value (tp_widget (dv_new (Some {| tp := 150; fp := 0; fn := 0 |}))) = 100%Z /\
  bi_value (tp_widget (dv_new (Some {| tp := 150; fp := 0; fn := 0 |}))) <> 150%Z.
Proof. split; [reflexivity|discriminate]. Qed.

(** C10 (amended): [new] with no value starts the three counters at 0; with
    a [ValResult] it starts each counter at the matching field clamped into
    [0, 100], which is the field itself when the field lies in [0, 100]. *)
Theorem dv_new_initial_counters (value : option ValResult) :
  (value = None ->
     bi_value (tp_widget (dv_new value)) = 0%Z /\
     bi_value (fp_widget (dv_new value)) = 0%Z /\
     bi_value (fn_widget (dv_new value)) = 0%Z) /\
  (forall v, value = Some v ->
     bi_value (tp_widget (dv_new value)) = Z.min (Z.max (tp v) 0) 100 /\
     bi_value (fp_widget (dv_new value)) = Z.min (Z.max (fp v) 0) 100 /\
     bi_value (fn_widget (dv_new value)) = Z.min (Z.max (fn v) 0) 100 /\
     ((0 <= tp v <= 100)%Z -> bi_value (tp_widget (dv_new value)) = tp v) /\
     ((0 <= fp v <= 100)%Z -> bi_value (fp_widget (dv_new value)) = fp v) /\
     ((0 <= fn v <= 100)%Z -> bi_value (fn_widget (dv_new value)) = fn v)).
Proof.
  split.
  - intros ->; repeat split.
  - intros v ->; unfold dv_new, BoundedIntText_new; simpl.
    rewrite !bi_clamp_eq by lia.
    repeat split; intros; lia.
Qed.

(** ** Witnesses: the theorems above at concrete inputs

    The labeler instances use [nat] labels, [0] for [None], and a factory
    whose [new] always returns. *)

Lemma reach_single_three :
  reach_single (Img:=unit) 0 (fun _ : nat => @Ok unit tt)
    {| lab := {| images := [tt; tt; tt]; labels := [0; 0; 0];
                 seen := [true; false; false]; rendered := [0] |};
       idx := 0; shown := Some 0; auto_next := true |}.
Proof. apply rs_init with (images0 := [tt; tt; tt]) (dl := None); reflexivity. Qed.

Lemma reach_multi_three :
  reach_multi (Img:=unit) 0 (fun _ : nat => @Ok unit tt)
    {| images := [tt; tt; tt]; labels := [4; 5; 6];
       seen := [true; true; true]; rendered := [0; 1; 2] |}.
Proof. apply rm_init with (images0 := [tt; tt; tt]) (dl := Some [4; 5; 6]); reflexivity. Qed.

Lemma single_nav_index_bounds_witness :
  exists s', single_step (fun _ : nat => @Ok unit tt)
    {| lab := {| images := [tt; tt; tt]; labels := [0; 0; 0];
                 seen := [true; false; false]; rendered := [0] |};
       idx := 0; shown := Some 0; auto_next := true |} Next = Ok s' /\ idx s' = 1.
Proof.
  destruct (single_nav_index_bounds (fun _ : nat => @Ok unit tt) 0 _ reach_single_three)
    as (_ & (s' & E & Hadv & _) & _).
  exists s'; split; [exact E|apply Hadv; simpl; lia].
Defined.

Lemma cell_callback_label_frame_witness :
  (exists s', cell_callback_single (fun _ : nat => @Ok unit tt) 1 7
     {| lab := {| images := [tt; tt; tt]; labels := [0; 0; 0];
                  seen := [true; false; false]; rendered := [0] |};
        idx := 0; shown := Some 0; auto_next := true |} = Ok s' /\
     nth_error (labels (lab s')) 1 = Some 7) /\
  (exists self', cell_callback_multi 2 9
     {| images := [tt; tt; tt]; labels := [4; 5; 6];
        seen := [true; true; true]; rendered := [0; 1; 2] |} = Ok self' /\
     nth_error (labels self') 2 = Some 9).
Proof.
  destruct (cell_callback_label_frame (Img:=unit) (fun _ : nat => @Ok unit tt) 0) as (Hs & Hm).
  split.
  - destruct (Hs _ 1 7 reach_single_three ltac:(unfold n_images; simpl; lia))
      as (s' & E & Hl & _).
    exists s'; split; [exact E|exact Hl].
  - destruct (Hm _ 2 9 reach_multi_three ltac:(simpl; lia)) as (self' & E & Hl & _).
    exists self'; split; [exact E|exact Hl].
Defined.

Lemma cell_callback_auto_advance_witness :
  exists s', single_step (fun _ : nat => @Ok unit tt)
    {| lab := {| images := [tt; tt; tt]; labels := [0; 0; 0];
                 seen := [true; false; false]; rendered := [0] |};
       idx := 0; shown := Some 0; auto_next := true |} (Cell 3) = Ok s' /\
    idx s' = 1 /\ nth 1 (seen (lab s')) false = true.
Proof.
  destruct (cell_callback_auto_advance (fun _ : nat => @Ok unit tt) 0 _ 0 3
              reach_single_three eq_refl) as (_ & s' & E & Hadv & _).
  exists s'; split; [exact E|].
  destruct (Hadv eq_refl ltac:(unfold n_images; simpl; lia)) as (Hid & _ & Hseen & _).
  split; [exact Hid|exact Hseen].
Defined.
Lemma input_cell_result_callback_witness :
  tb_select {| tb_options := [PStr "cat"; PStr "dog"]; tb_value := PStr "cat" |} (PStr "dog")
    = Ok ({| tb_options := [PStr "cat"; PStr "dog"]; tb_value := PStr "dog" |}, [PStr "dog"]) /\
  snd (dv_step (fst (dv_run (dv_new None) [EditTp 4])) ClickSubmit)
    = [{| tp := 4; fp := 0; fn := 0 |}].
Proof.
  destruct input_cell_result_callback as (_ & Hsel & Hval).
  split.
  - apply (Hsel {| tb_options := [PStr "cat"; PStr "dog"]; tb_value := PStr "cat" |} (PStr "dog")).
    + simpl; right; left; reflexivity.
    + simpl; discriminate.
  - rewrite (Hval None [EditTp 4] ClickSubmit); reflexivity.
Defined.

Lemma val_result_bounded_witness :
  In {| tp := 100; fp := 0; fn := 7 |}
     (snd (dv_run (dv_new None) [EditTp 250; EditFn 7; ClickSubmit])) /\
  (0 <= 100 <= 100 /\ 0 <= 0 <= 100 /\ 0 <= 7 <= 100)%Z.
Proof.
  assert (H : In {| tp := 100; fp := 0; fn := 7 |}
                 (snd (dv_run (dv_new None) [EditTp 250; EditFn 7; ClickSubmit])))
    by (simpl; left; reflexivity).
  split; [exact H|exact (val_result_bounded None _ _ H)].
Defined.


Lemma multi_mode_renders_all_witness :
  exists self : Labeler unit nat,
    ImageLabeler_multi 0 (fun _ : nat => @Ok unit tt) [tt; tt; tt] None = Ok self /\
    all_seen self = true.
Proof.
  destruct (multi_mode_renders_all (fun _ : nat => @Ok unit tt) 0 [tt; tt; tt] None
              (or_introl eq_refl)) as (self & E & _ & _ & _ & Hall).
  exists self; split; [exact E|].
  apply Hall; intros i _; reflexivity.
Defined.


Lemma init_labels_and_seen_witness :
  init_fields 0 [tt; tt] (Some [1; 2; 3]) = Raise AssertionError /\
  exists self, init_fields 0 [tt; tt] (Some [1; 2]) = Ok self /\ labels self = [1; 2].
Proof.
  destruct (init_labels_and_seen (Img:=unit) (fun _ : nat => @Ok unit tt) 0 [tt; tt])
    as (_ & _ & _ & Hbad & Hgood).
  split.
  - apply (Hbad [1; 2; 3]); simpl; discriminate.
  - destruct (Hgood [1; 2] eq_refl) as (self & E & Hl & _).
    exists self; split; [exact E|exact Hl].
Defined.
Lemma mc_new_initial_selection_witness :
  exists w, mc_new {| mc_classes := [PStr "cat"; PStr "dog"]; mc_default_class := PStr "cat" |}
                   PNone = Ok w /\ tb_value w = PStr "cat".
Proof.
  destruct (mc_new_initial_selection [PStr "cat"; PStr "dog"] (PInt 0) PNone
              {| mc_classes := [PStr "cat"; PStr "dog"]; mc_default_class := PStr "cat" |}
              eq_refl) as (_ & _ & _ & Hdef).
  destruct (Hdef (or_introl eq_refl)) as (Hin & _).
  apply Hin; simpl; left; reflexivity.
Defined.

Lemma dv_new_initial_counters_witness :
  bi_value (tp_widget (dv_new (Some {| tp := 42; fp := 3; fn := 0 |}))) = 42%Z.
Proof.
  destruct (dv_new_initial_counters (Some {| tp := 42; fp := 3; fn := 0 |})) as (_ & H).
  destruct (H _ eq_refl) as (_ & _ & _ & Htp & _).
  apply Htp; simpl; lia.
Defined.


(** ** Further properties of single-mode navigation *)

Section Navigation.
Context {Img L W : Type} (cf : L -> result W).

Lemma render_img_single_frame (s s' : Single Img L) (i : nat) :
  render_img_single cf s i = Ok s' ->
  labels (lab s') = labels (lab s) /\ images (lab s') = images (lab s).
Proof.
  unfold render_img_single.
  destruct (load_image (lab s) i); simpl; [|discriminate].
  destruct (output_with _ _) as [seen' shown'].
  intro E; inversion E; split; reflexivity.
Qed.

(** At the last image Next, and at the first image Previous, leave the
    whole state as it is: no render, no seen flag, no index change. *)
Theorem nav_at_ends_noop (py_none : L) (s : Single Img L) :
  reach_single py_none cf s ->
  (idx s = n_images s - 1 -> single_step cf s Next = Ok s) /\
  (idx s = 0 -> single_step cf s Prev = Ok s).
Proof.
  intro Hr; pose proof (reach_single_inv cf py_none s Hr) as Hs.
  split; intro H.
  - destruct (next_img_spec cf s Hs) as (t & Et & _ & _ & _ & _ & _ & _ & Hstay).
    simpl; rewrite Et, (Hstay ltac:(lia)); reflexivity.
  - destruct (prev_img_spec cf s Hs) as (t & Et & _ & _ & _ & _ & _ & _ & Hstay).
    simpl; rewrite Et, (Hstay ltac:(lia)); reflexivity.
Qed.

(** Next followed by Previous (away from the last image), and Previous
    followed by Next (away from the first), come back to the same index and
    labels, having rendered the neighbour and then the image again. *)
Theorem nav_round_trips (py_none : L) (s : Single Img L) :
  reach_single py_none cf s ->
  (idx s < n_images s - 1 ->
     exists s1 s2, single_step cf s Next = Ok s1 /\ single_step cf s1 Prev = Ok s2 /\
       idx s2 = idx s /\ labels (lab s2) = labels (lab s) /\
       rendered (lab s2) = rendered (lab s) ++ [idx s + 1; idx s]) /\
  (0 < idx s ->
     exists s1 s2, single_step cf s Prev = Ok s1 /\ single_step cf s1 Next = Ok s2 /\
       idx s2 = idx s /\ labels (lab s2) = labels (lab s) /\
       rendered (lab s2) = rendered (lab s) ++ [idx s - 1; idx s]).
Proof.
  intro Hr; pose proof (reach_single_inv cf py_none s Hr) as Hs.
  split; intro H.
  - destruct (next_img_spec cf s Hs) as (s1 & E1 & Hs1 & Him1 & Hl1 & _ & _ & Hadv1 & _).
    destruct (Hadv1 H) as (Hid1 & Hr1 & _).
    destruct (prev_img_spec cf s1 Hs1) as (s2 & E2 & _ & _ & Hl2 & _ & _ & Hadv2 & _).
    destruct (Hadv2 ltac:(lia)) as (Hid2 & Hr2 & _).
    exists s1, s2; simpl; split; [exact E1|split; [exact E2|]].
    split; [lia|split; [congruence|]].
    rewrite Hr2, Hr1, Hid1, <- app_assoc; simpl; do 3 f_equal; lia.
  - destruct (prev_img_spec cf s Hs) as (s1 & E1 & Hs1 & Him1 & Hl1 & _ & _ & Hadv1 & _).
    destruct (Hadv1 H) as (Hid1 & Hr1 & _).
    pose proof Hs as (_ & Hidx & _).
    destruct (next_img_spec cf s1 Hs1) as (s2 & E2 & _ & _ & Hl2 & _ & _ & Hadv2 & _).
    destruct (Hadv2 ltac:(unfold n_images in *; rewrite Him1; lia)) as (Hid2 & Hr2 & _).
    exists s1, s2; simpl; split; [exact E1|split; [exact E2|]].
    split; [lia|split; [congruence|]].
    rewrite Hr2, Hr1, Hid1, <- app_assoc; simpl; do 3 f_equal; lia.
Qed.

(** Any run of Next, Previous and checkbox events (no cell callback) leaves
    the labels and the images as they were. *)
Theorem navigation_keeps_labels (s s' : Single Img L) (es : list (@event L)) :
  Forall (fun e => match e with Cell _ => False | _ => True end) es ->
  run_single cf s es = Ok s' ->
  labels (lab s') = labels (lab s) /\ images (lab s') = images (lab s).
Proof.
  revert s; induction es as [|e es IH]; intros s Hf E; simpl in E.
  - inversion E; split; reflexivity.
  - inversion Hf as [|e0 es0 He Hes]; subst.
    destruct (single_step cf s e) as [s1|x] eqn:E1; simpl in E; [|discriminate].
    destruct (IH s1 Hes E) as (Hl & Hi); rewrite Hl, Hi.
    destruct e as [| |label|b]; simpl in E1; try contradiction.
    + unfold next_img in E1; destruct (_ <? _).
      * apply render_img_single_frame in E1; exact E1.
      * inversion E1; split; reflexivity.
    + unfold prev_img in E1; destruct (_ <? _).
      * apply render_img_single_frame in E1; exact E1.
      * inversion E1; split; reflexivity.
    + inversion E1; split; reflexivity.
Qed.

(** A displayed cell is the cell of the current image, and that image is
    marked seen.  When [new] returns on every label, a cell is always
    displayed, so the current image is always seen. *)
Theorem displayed_cell_image_seen (py_none : L) (s : Single Img L) :
  reach_single py_none cf s ->
  (forall i, shown s = Some i -> i = idx s /\ nth i (seen (lab s)) false = true) /\
  ((forall v, builds_cell cf v = true) ->
     shown s = Some (idx s) /\ nth (idx s) (seen (lab s)) false = true).
Proof.
  intro Hr; pose proof (reach_single_inv cf py_none s Hr) as (_ & _ & Hshown).
  split; [exact Hshown|].
  intro Ht; destruct (reach_single_total cf py_none s Ht Hr) as (Hsh & _).
  split; [exact Hsh|apply (Hshown _ Hsh)].
Qed.

End Navigation.

(** ** Labelling and clicking through a whole single-mode session *)

Lemma py_setitem_firstn {A : Type} (l : list A) (k : nat) (x : A) :
  k < length l -> py_setitem l k x = Ok (firstn k l ++ x :: skipn (S k) l).
Proof.
  revert k; induction l as [|y l IH]; intros [|k] Hk; simpl in *; try lia.
  - reflexivity.
  - rewrite (IH k ltac:(lia)); reflexivity.
Qed.

Lemma firstn_after_set {A : Type} (l r : list A) (k : nat) (x : A) :
  k <= length l -> firstn (S k) (firstn k l ++ x :: r) = firstn k l ++ [x].
Proof.
  intro Hk; rewrite firstn_app, firstn_firstn, length_firstn.
  replace (Nat.min (S k) k) with k by lia.
  replace (Nat.min k (length l)) with k by lia.
  replace (S k - k) with 1 by lia; reflexivity.
Qed.

Section Sessions.
Context {Img L W : Type} (cf : L -> result W).

Lemma run_single_reach (py_none : L) (s : Single Img L) (es : list (@event L))
  (s' : Single Img L) :
  reach_single py_none cf s -> run_single cf s es = Ok s' -> reach_single py_none cf s'.
Proof.
  revert s; induction es as [|e es IH]; intros s Hr E; simpl in E.
  - inversion E; subst; exact Hr.
  - destruct (single_step cf s e) as [s1|x] eqn:E1; simpl in E; [|discriminate].
    apply (IH s1); [apply (rs_step py_none cf s e s1 Hr E1)|exact E].
Qed.

Lemma auto_label_run (s : Single Img L) (vs : list L) :
  (forall v, builds_cell cf v = true) ->
  single_inv s -> auto_next s = true -> shown s = Some (idx s) ->
  (forall j, j <= idx s -> nth j (seen (lab s)) false = true) ->
  length vs = n_images s - idx s ->
  exists s', run_single cf s (map Cell vs) = Ok s' /\
    labels (lab s') = firstn (idx s) (labels (lab s)) ++ vs /\
    idx s' = n_images s - 1 /\ images (lab s') = images (lab s) /\
    (forall j, j < n_images s -> nth j (seen (lab s')) false = true).
Proof.
  intro Ht; revert s; induction vs as [|v vs IH]; intros s Hs Ha Hsh Hseen Hlen.
  - pose proof Hs as (_ & Hidx & _); simpl in Hlen; lia.
  - pose proof Hs as ((Hl & Hsl & Hrs) & Hidx & _).
    destruct (cell_callback_single_spec cf (idx s) v s Hs Hidx)
      as (labels' & s1 & Eset & _ & _ & Hs1 & Hinv1 & E1).
    unfold n_images in Hidx.
    assert (Hlab' : labels' = firstn (idx s) (labels (lab s))
                              ++ v :: skipn (S (idx s)) (labels (lab s))).
    { rewrite py_setitem_firstn in Eset by lia; congruence. }
    clear Eset.
    assert (Estep : single_step cf s (Cell v) = cell_callback_single cf (idx s) v s)
      by (unfold single_step; rewrite Hsh; reflexivity).
    cbn [run_single map]; rewrite Estep, E1, Ha, andb_true_r.
    unfold n_images in *; simpl in Hlen.
    destruct vs as [|v' vs'].
    + simpl in Hlen.
      assert (Hlt : (idx s <? length (images (lab s)) - 1) = false)
        by (apply Nat.ltb_ge; lia).
      rewrite Hlt.
      exists s1; split; [reflexivity|].
      subst s1; simpl.
      split; [|split; [lia|split; [reflexivity|]]].
      * rewrite Hlab', skipn_all2 by lia; reflexivity.
      * intros j Hj; apply Hseen; lia.
    + simpl in Hlen.
      assert (Hlt : (idx s <? length (images (lab s)) - 1) = true)
        by (apply Nat.ltb_lt; lia).
      rewrite Hlt.
      destruct (next_img_spec cf s1 Hinv1)
        as (s2 & E2 & Hs2 & Him2 & Hl2 & Ha2 & Hmono2 & Hadv2 & _).
      assert (Hi1 : idx s1 = idx s) by (subst s1; reflexivity).
      assert (Hm1 : images (lab s1) = images (lab s)) by (subst s1; reflexivity).
      assert (Hseen1 : seen (lab s1) = seen (lab s)) by (subst s1; reflexivity).
      destruct (Hadv2 ltac:(unfold n_images; rewrite Hm1, Hi1; lia))
        as (Hid2 & Hr2 & Hsn2 & Hsh2).
      assert (Hc : cell_built cf (lab s1) (idx s1 + 1) = true).
      { apply (cell_built_total cf _ _ Ht).
        destruct Hinv1 as ((Hl1 & _) & _); rewrite Hl1, Hm1, Hi1; lia. }
      rewrite Hc in Hsn2, Hsh2.
      rewrite E2; cbn [bind].
      assert (Hcur : nth (idx s2) (seen (lab s2)) false = true)
        by (rewrite Hsn2, Hid2, Nat.eqb_refl; reflexivity).
      destruct (IH s2 Hs2 ltac:(rewrite Ha2; subst s1; exact Ha)
                  ltac:(rewrite Hsh2, Hid2; reflexivity)
                  ltac:(intros j Hj;
                        destruct (Nat.eq_dec j (idx s2)) as [->|Hne];
                        [exact Hcur|apply Hmono2; rewrite Hseen1; apply Hseen; lia])
                  ltac:(unfold n_images; rewrite Him2, Hm1; simpl in *; lia))
        as (s' & E' & Hl' & Hid' & Him' & Hseen').
      exists s'; split; [exact E'|].
      unfold n_images in *; rewrite Him2, Hm1 in *.
      rewrite Hl', Hl2, Hid2, Hi1.
      assert (Hl1 : labels (lab s1) = labels') by (subst s1; reflexivity).
      rewrite Hl1, Hlab', Nat.add_1_r, firstn_after_set by lia.
      rewrite <- app_assoc; simpl.
      split; [reflexivity|split; [lia|split; [exact Him'|exact Hseen']]].
Qed.

Lemma next_run (s : Single Img L) (m : nat) :
  single_inv s ->
  rendered (lab s) = seq 0 (idx s + 1) ->
  (forall j, nth j (seen (lab s)) false = (j <=? idx s) && cell_built cf (lab s) j) ->
  m = n_images s - 1 - idx s ->
  exists s', run_single cf s (repeat Next m) = Ok s' /\
    idx s' = n_images s - 1 /\ labels (lab s') = labels (lab s) /\
    images (lab s') = images (lab s) /\
    rendered (lab s') = seq 0 (n_images s) /\
    (forall j, nth j (seen (lab s')) false = (j <? n_images s) && cell_built cf (lab s) j).
Proof.
  revert s; induction m as [|m IH]; intros s Hs Hrd Hseen Hm.
  - pose proof Hs as (_ & Hidx & _).
    exists s; simpl; split; [reflexivity|split; [lia|split; [reflexivity|split; [reflexivity|]]]].
    split; [rewrite Hrd; f_equal; lia|].
    intro j; rewrite Hseen.
    destruct (Nat.leb_spec j (idx s)), (Nat.ltb_spec j (n_images s)); try lia; reflexivity.
  - pose proof Hs as (_ & Hidx & _).
    destruct (next_img_spec cf s Hs)
      as (s1 & E1 & Hs1 & Him1 & Hl1 & _ & _ & Hadv1 & _).
    destruct (Hadv1 ltac:(lia)) as (Hid1 & Hr1 & Hsn1 & _).
    assert (Hcb : forall j, cell_built cf (lab s1) j = cell_built cf (lab s) j)
      by (intro j; apply cell_built_labels; exact Hl1).
    destruct (IH s1 Hs1
                ltac:(rewrite Hr1, Hrd, Hid1;
                      replace (idx s + 1 + 1) with (S (idx s + 1)) by lia;
                      rewrite seq_S; reflexivity)
                ltac:(intro j; rewrite Hsn1, Hseen, Hid1, Hcb;
                      destruct (Nat.eqb_spec j (idx s + 1)),
                               (Nat.leb_spec j (idx s)), (Nat.leb_spec j (idx s + 1));
                      try lia; subst; simpl; rewrite ?orb_false_r; reflexivity)
                ltac:(unfold n_images in *; rewrite Him1; lia))
      as (s' & E' & Hid' & Hl' & Him' & Hr' & Hseen').
    exists s'; cbn [repeat run_single].
    change (single_step cf s Next) with (next_img cf s); rewrite E1; cbn [bind].
    unfold n_images in *; rewrite Him1 in *.
    split; [exact E'|split; [exact Hid'|split; [congruence|split; [congruence|]]]].
    split; [exact Hr'|intro j; rewrite Hseen', Hcb; reflexivity].
Qed.

(** With auto-advance left on and a factory whose [new] returns on every
    label, submitting one label per image, in order, from a freshly built
    single-mode labeler stores exactly those labels, ends on the last image
    and leaves every image seen. *)
Theorem auto_advance_labels_all (py_none : L) (images0 : list Img) dl
  (s : Single Img L) (vs : list L) :
  (forall v, builds_cell cf v = true) ->
  ImageLabeler_single py_none cf images0 dl = Ok s ->
  length vs = length images0 ->
  exists s', run_single cf s (map Cell vs) = Ok s' /\
    labels (lab s') = vs /\ idx s' = length images0 - 1 /\
    all_seen (lab s') = true.
Proof.
  intros Ht E Hlen.
  destruct (ImageLabeler_single_spec cf py_none images0 dl s E)
    as (Hs & Hid & Ha & _ & Him & _ & Hseen & Hsh).
  pose proof Hs as ((Hl0 & _) & Hidx0 & _).
  assert (Hc : cell_built cf (lab s) 0 = true)
    by (apply (cell_built_total cf _ _ Ht); unfold n_images in Hidx0; lia).
  rewrite Hc in Hsh, Hseen.
  destruct (auto_label_run s vs Ht Hs Ha ltac:(rewrite Hsh, Hid; reflexivity)
              ltac:(intros j Hj; rewrite Hseen, andb_true_r; apply Nat.eqb_eq; lia)
              ltac:(unfold n_images; rewrite Him, Hid; lia))
    as (s' & E' & Hl' & Hid' & Him' & Hseen').
  exists s'; split; [exact E'|].
  rewrite Hl', Hid; simpl; split; [reflexivity|].
  unfold n_images in *; rewrite Him in *.
  split; [exact Hid'|].
  pose proof (reach_single_inv cf py_none s'
                (run_single_reach py_none s _ s' (rs_init py_none cf _ _ _ E) E'))
    as ((_ & Hsl & _) & _).
  apply (all_seen_iff _ Hsl); rewrite Him'; exact Hseen'.
Qed.

(** Pressing Next [n - 1] times on a freshly built single-mode labeler
    renders every image once, in order, and ends on the last image with the
    labels untouched.  Image [j] is then seen exactly when [new] returns on
    its label, so [all_seen] holds exactly when [new] returns on every
    label. *)
Theorem click_through_renders_all (py_none : L) (images0 : list Img) dl
  (s : Single Img L) :
  ImageLabeler_single py_none cf images0 dl = Ok s ->
  exists s', run_single cf s (repeat Next (length images0 - 1)) = Ok s' /\
    idx s' = length images0 - 1 /\ labels (lab s') = labels (lab s) /\
    rendered (lab s') = seq 0 (length images0) /\
    (forall j, j < length images0 ->
       nth j (seen (lab s')) false = builds_cell cf (nth j (labels (lab s)) py_none)) /\
    (all_seen (lab s') = true <->
       forall j, j < length images0 -> builds_cell cf (nth j (labels (lab s)) py_none) = true).
Proof.
  intro E.
  destruct (ImageLabeler_single_spec cf py_none images0 dl s E)
    as (Hs & Hid & _ & Hrd & Him & _ & Hseen & _).
  pose proof Hs as ((Hl0 & _) & _).
  destruct (next_run s (length images0 - 1) Hs
              ltac:(rewrite Hrd, Hid; reflexivity)
              ltac:(intro j; rewrite Hseen, Hid; destruct j; reflexivity)
              ltac:(unfold n_images; rewrite Him, Hid; lia))
    as (s' & E' & Hid' & Hl' & Him' & Hr' & Hseen').
  unfold n_images in *; rewrite Him in *.
  assert (Hall : forall j, j < length images0 ->
            nth j (seen (lab s')) false = builds_cell cf (nth j (labels (lab s)) py_none)).
  { intros j Hj; rewrite Hseen', (cell_built_nth cf (lab s) j py_none) by lia.
    apply Nat.ltb_lt in Hj; rewrite Hj; reflexivity. }
  exists s'; split; [exact E'|split; [exact Hid'|split; [exact Hl'|split; [exact Hr'|]]]].
  split; [exact Hall|].
  pose proof (reach_single_inv cf py_none s'
                (run_single_reach py_none s _ s' (rs_init py_none cf _ _ _ E) E'))
    as ((_ & Hsl & _) & _).
  rewrite (all_seen_iff _ Hsl), Him'.
  split; intros H j Hj; [rewrite <- (Hall j Hj)|rewrite (Hall j Hj)]; apply H; exact Hj.
Qed.

End Sessions.

(** ** The progress display *)

Lemma bi_set_in_range (w : BoundedIntText) (v : Z) :
  (bi_min w <= v <= bi_max w)%Z -> bi_value (bi_set w v) = v.
Proof.
  intro H; unfold bi_set, bi_clamp; simpl.
  destruct (Z.gtb_spec (bi_min w) v), (Z.ltb_spec (bi_max w) v); simpl; lia.
Qed.

Section ProgressProofs.
Context {Img L W : Type} (py_none : L) (cf : L -> result W).

Lemma set_progess_inv (u : SingleUI Img L) (s' : Single Img L) :
  reach_single py_none cf s' -> bi_min (pbar_widget u) = 1%Z ->
  bi_max (pbar_widget u) = Z.of_nat (n_images s') ->
  ui_inv py_none cf (set_progess (with_core u s')).
Proof.
  intros Hr Hmin Hmax.
  pose proof (reach_single_inv cf py_none s' Hr) as (_ & Hidx & _).
  unfold ui_inv, set_progess, with_core; simpl.
  split; [exact Hr|split; [exact Hmin|split; [exact Hmax|split; [|reflexivity]]]].
  apply bi_set_in_range; lia.
Qed.

Lemma with_core_inv (u : SingleUI Img L) (s' : Single Img L) :
  ui_inv py_none cf u -> reach_single py_none cf s' -> idx s' = idx (core u) ->
  n_images s' = n_images (core u) -> ui_inv py_none cf (with_core u s').
Proof.
  intros (_ & Hmin & Hmax & Hval & Hlab) Hr Hid Hn.
  unfold ui_inv, with_core; simpl; rewrite Hid, Hn.
  repeat split; assumption.
Qed.

Lemma reach_ui_inv (u : SingleUI Img L) : reach_ui py_none cf u -> ui_inv py_none cf u.
Proof.
  induction 1 as [images0 dl u E|u e u' Hr IH E].
  - unfold ImageLabeler_single_ui in E.
    destruct (init_fields py_none images0 dl) as [self|x] eqn:Ei; simpl in E; [|discriminate].
    destruct (IntProgress_new 1 1 (Z.of_nat (length (images self)))) as [pbar|x] eqn:Ep;
      simpl in E; [|discriminate].
    assert (Hcore : core u = output_with
              (render_img_single cf {| lab := self; idx := 0; shown := None; auto_next := true |} 0)
              {| lab := self; idx := 0; shown := None; auto_next := true |})
      by (inversion E; reflexivity).
    assert (Hpb : pbar_widget u = bi_set pbar (Z.of_nat (0 + 1)) /\
                  label_widget u = progress_text (0 + 1) (length (images self)))
      by (inversion E; split; reflexivity).
    assert (Es : ImageLabeler_single py_none cf images0 dl = Ok (core u)).
    { rewrite Hcore; unfold ImageLabeler_single, render_single; rewrite Ei; simpl.
      rewrite Ep; reflexivity. }
    pose proof (ImageLabeler_single_spec cf py_none images0 dl (core u) Es)
      as (_ & Hid & _ & _ & Him & _).
    destruct (init_fields_spec images0 dl py_none self Ei) as (_ & Him0 & _).
    unfold IntProgress_new in Ep.
    destruct (Z.ltb_spec (Z.of_nat (length (images self))) 1); [discriminate|].
    injection Ep as <-.
    unfold ui_inv; rewrite (proj1 Hpb), (proj2 Hpb), Hid; unfold n_images; rewrite Him, <- Him0.
    split; [exact (rs_init py_none cf images0 dl (core u) Es)|].
    split; [reflexivity|split; [reflexivity|split; [|reflexivity]]].
    apply bi_set_in_range; simpl; lia.
  - pose proof IH as (Hrc & Hmin & Hmax & _).
    pose proof (reach_single_inv cf py_none (core u) Hrc) as Hs.
    destruct e as [| |label|b]; unfold ui_step in E.
    + destruct (next_img_spec cf (core u) Hs) as (s' & E' & _ & Him & _).
      rewrite E' in E; simpl in E; inversion E; subst u'.
      apply set_progess_inv; [exact (rs_step py_none cf _ Next s' Hrc E')|exact Hmin|].
      unfold n_images; rewrite Him; exact Hmax.
    + destruct (prev_img_spec cf (core u) Hs) as (s' & E' & _ & Him & _).
      rewrite E' in E; simpl in E; inversion E; subst u'.
      apply set_progess_inv; [exact (rs_step py_none cf _ Prev s' Hrc E')|exact Hmin|].
      unfold n_images; rewrite Him; exact Hmax.
    + destruct (single_step cf (core u) (Cell label)) as [s'|x] eqn:Es;
        simpl in E; [|discriminate].
      pose proof (rs_step py_none cf _ _ s' Hrc Es) as Hr'.
      destruct (shown (core u)) as [i|] eqn:Hsh.
      * pose proof Hs as (_ & Hidx & Hshown).
        destruct (Hshown i Hsh) as (-> & _).
        destruct (cell_callback_single_spec cf (idx (core u)) label (core u) Hs Hidx)
          as (labels' & s1 & _ & _ & _ & Hs1 & Hinv1 & E1).
        unfold single_step in Es; rewrite Hsh, E1 in Es.
        destruct ((idx (core u) <? n_images (core u) - 1) && auto_next (core u)).
        -- inversion E; subst u'.
           destruct (next_img_spec cf s1 Hinv1) as (t & Et & _ & Him & _).
           rewrite Es in Et; inversion Et; subst t.
           apply set_progess_inv; [exact Hr'|exact Hmin|].
           unfold n_images; rewrite Him; subst s1; exact Hmax.
        -- inversion E; subst u'; inversion Es; subst s'.
           apply with_core_inv; [exact IH|exact Hr'| |]; subst s1; reflexivity.
      * inversion E; subst u'.
        unfold single_step in Es; rewrite Hsh in Es; inversion Es; subst s'.
        apply with_core_inv; [exact IH|exact Hr'|reflexivity|reflexivity].
    + inversion E; subst u'.
      apply with_core_inv; [exact IH| |reflexivity|reflexivity].
      exact (rs_step py_none cf _ (SetAuto b) _ Hrc eq_refl).
Qed.

(** In single mode the progress bar always holds [idx + 1] within its bounds
    [1, n], and the label always reads ["idx+1 / n"]: every change of the
    index is followed by [set_progess()]. *)
Theorem progress_display_tracks_index (u : SingleUI Img L) :
  reach_ui py_none cf u ->
  reach_single py_none cf (core u) /\
  bi_value (pbar_widget u) = Z.of_nat (idx (core u) + 1) /\
  (1 <= bi_value (pbar_widget u) <= bi_max (pbar_widget u))%Z /\
  bi_max (pbar_widget u) = Z.of_nat (n_images (core u)) /\
  label_widget u = progress_text (idx (core u) + 1) (n_images (core u)).
Proof.
  intro Hr; destruct (reach_ui_inv u Hr) as (Hrc & Hmin & Hmax & Hval & Hlab).
  pose proof (reach_single_inv cf py_none (core u) Hrc) as (_ & Hidx & _).
  split; [exact Hrc|split; [exact Hval|split; [|split; [exact Hmax|exact Hlab]]]].
  rewrite Hval, Hmax; lia.
Qed.

End ProgressProofs.

(** ** Edge cases and the multi-mode invariant *)

Section Edges.
Context {Img L W : Type} (cf : L -> result W).

(** An empty image list: single-mode construction raises [TraitError] when
    it builds [IntProgress(value=1, min=1, max=0)], unless a non-empty
    [default_labels] fails the length assertion first; multi-mode
    construction succeeds with no labels, nothing rendered and [all_seen]
    true. *)
Theorem empty_image_list (py_none : L) :
  (forall dl, ImageLabeler_single (Img:=Img) py_none cf [] dl =
     Raise (match dl with Some (_ :: _) => AssertionError | _ => TraitError end)) /\
  (forall dl, ImageLabeler_single_ui (Img:=Img) py_none cf [] dl =
     Raise (match dl with Some (_ :: _) => AssertionError | _ => TraitError end)) /\
  (exists self : Labeler Img L, ImageLabeler_multi py_none cf [] None = Ok self /\
     labels self = [] /\ rendered self = [] /\ all_seen self = true).
Proof.
  split; [|split].
  - intros [[|x l]|]; reflexivity.
  - intros [[|x l]|]; reflexivity.
  - eexists; split; [reflexivity|repeat split].
Qed.

(** In multi mode, with a factory whose [new] returns on every label,
    [all_seen] holds in every reachable state: construction marks every
    image and the cell callbacks never touch the seen flags. *)
Theorem multi_all_seen_invariant (py_none : L) (self : Labeler Img L) :
  (forall v, builds_cell cf v = true) ->
  reach_multi py_none cf self -> all_seen self = true.
Proof.
  intros Ht Hr.
  destruct (reach_multi_inv cf py_none self Hr) as ((_ & Hsl & _) & _).
  apply (all_seen_iff _ Hsl).
  apply (reach_multi_total cf py_none self Ht Hr).
Qed.

End Edges.

(** ** Which class selectors always build their cell *)

Lemma mc_new_builds_iff (f : MultiClassInputCellFactory) :
  (forall v, builds_cell (mc_new f) v = true) <-> In (mc_default_class f) (mc_classes f).
Proof.
  split.
  - intro H; specialize (H PNone).
    unfold builds_cell, mc_new, ToggleButtons_new in H; simpl in H.
    apply py_in_In.
    destruct (py_in (mc_default_class f) (mc_classes f)); [reflexivity|discriminate].
  - intros Hin v; unfold builds_cell, mc_new, ToggleButtons_new.
    destruct (is_none v || negb (py_in v (mc_classes f))) eqn:Hc.
    + apply py_in_In in Hin; rewrite Hin; reflexivity.
    + apply orb_false_iff in Hc as (_ & Hc); apply negb_false_iff in Hc.
      rewrite Hc; reflexivity.
Qed.

(** The class selector's [new] returns on every value exactly when the
    default class is one of the classes; a factory built with a falsy
    default (which then takes [classes[0]]), or with a default among the
    classes, is such a factory. *)
Theorem mc_new_total_iff :
  (forall f : MultiClassInputCellFactory,
     (forall v, builds_cell (mc_new f) v = true) <-> In (mc_default_class f) (mc_classes f)) /\
  (forall classes default f,
     MultiClassInputCellFactory_init classes default = Ok f ->
     py_truthy default = false \/ In default classes ->
     forall v, builds_cell (mc_new f) v = true).
Proof.
  split; [exact mc_new_builds_iff|].
  intros classes default f E Hd.
  apply mc_new_builds_iff.
  unfold MultiClassInputCellFactory_init in E.
  destruct (py_truthy default) eqn:Ht; simpl in E.
  - injection E as <-; simpl; destruct Hd as [H|H]; [discriminate|exact H].
  - destruct classes as [|c cs]; simpl in E; [discriminate|].
    injection E as <-; simpl; left; reflexivity.
Qed.
(** ** Sequences of selections and submissions *)

Lemma last_cons_default {A : Type} (c : A) (cs : list A) (d : A) :
  last (c :: cs) d = last cs c.
Proof.
  revert c d; induction cs as [|c' cs IH]; intros c d; [reflexivity|].
  change (last (c' :: cs) d = last (c' :: cs) c).
  rewrite (IH c' d), (IH c' c); reflexivity.
Qed.

Lemma last_app_nonempty {A : Type} (l1 l2 : list A) (d : A) :
  l2 <> [] -> last (l1 ++ l2) d = last l2 d.
Proof.
  intro H; induction l1 as [|x l1 IH]; [reflexivity|].
  rewrite <- app_comm_cons, <- IH.
  destruct (l1 ++ l2) as [|y r] eqn:E; [|reflexivity].
  apply app_eq_nil in E; destruct E; contradiction.
Qed.

(** After a sequence of clicks on a class selector, it shows the class
    clicked last; the callback received only clicked classes; if it was
    never called the selection did not move, and otherwise the last class it
    received is the one shown. *)
Theorem selector_clicks_sync (w w' : ToggleButtons) (cs out : list pyval) :
  tb_run w cs = Ok (w', out) ->
  tb_options w' = tb_options w /\
  tb_value w' = last cs (tb_value w) /\
  (forall c, In c out -> In c cs) /\
  (out = [] -> tb_value w' = tb_value w) /\
  (out <> [] -> last out PNone = tb_value w').
Proof.
  revert w out; induction cs as [|c cs IH]; intros w out E; simpl in E.
  - inversion E; subst.
    split; [reflexivity|split; [reflexivity|split; [intros c []|split; [auto|]]]].
    intro H; contradiction.
  - unfold tb_select in E.
    destruct (negb (py_in c (tb_options w))); simpl in E; [discriminate|].
    destruct (pyval_eqb c (tb_value w)) eqn:Heq; simpl in E.
    + apply pyval_eqb_true in Heq.
      destruct (tb_run w cs) as [[w2 out2]|x] eqn:E2; simpl in E; [|discriminate].
      inversion E; subst w2 out; clear E.
      destruct (IH w out2 E2) as (Ho & Hv & Hin & Hnil & Hlast).
      split; [exact Ho|split; [rewrite Hv, last_cons_default, Heq; reflexivity|]].
      split; [intros c' Hc'; right; apply Hin; exact Hc'|split; assumption].
    + destruct (tb_run {| tb_options := tb_options w; tb_value := c |} cs)
        as [[w2 out2]|x] eqn:E2; simpl in E; [|discriminate].
      inversion E; subst w2 out; clear E.
      destruct (IH _ out2 E2) as (Ho & Hv & Hin & Hnil & Hlast); simpl in Ho, Hv, Hnil.
      split; [exact Ho|split; [rewrite Hv, last_cons_default; reflexivity|]].
      split; [intros c' [<-|Hc']; [left; reflexivity|right; apply Hin; exact Hc']|].
      split; [intro H; discriminate|intros _].
      destruct out2 as [|o out2].
      * simpl; symmetry; apply Hnil; reflexivity.
      * change ([c] ++ o :: out2) with (c :: o :: out2).
        rewrite <- Hlast by discriminate; reflexivity.
Qed.

(** The validation cell calls [result_callback] exactly once per click on
    Submit, whatever the edits in between. *)
Theorem one_result_per_submit (c : ValCell) (es : list ValEvent) :
  length (snd (dv_run c es)) =
  length (filter (fun e => match e with ClickSubmit => true | _ => false end) es).
Proof.
  revert c; induction es as [|e es IH]; intro c; [reflexivity|].
  simpl; destruct (dv_step c e) as [c1 out1] eqn:E1.
  destruct (dv_run c1 es) as [c2 out2] eqn:E2.
  simpl; rewrite length_app.
  specialize (IH c1); rewrite E2 in IH; simpl in IH; rewrite IH.
  destruct e; simpl in E1; inversion E1; reflexivity.
Qed.

(** With no classes, the factory cannot be built when the default is falsy
    ([classes[0]] raises), and when it can be built (truthy default) every
    [new] raises, since the selector has no option to select. *)
Theorem multiclass_no_classes (default value : pyval) :
  (py_truthy default = false ->
     MultiClassInputCellFactory_init [] default = Raise IndexError) /\
  (forall f, MultiClassInputCellFactory_init [] default = Ok f ->
     mc_new f value = Raise TraitError).
Proof.
  split.
  - intro H; unfold MultiClassInputCellFactory_init; rewrite H; reflexivity.
  - intros f E; unfold MultiClassInputCellFactory_init in E.
    destruct (py_truthy default); simpl in E; [|discriminate].
    inversion E; subst f; unfold mc_new, ToggleButtons_new; simpl.
    destruct (is_none value || negb false); reflexivity.
Qed.


(** ** Instances of the further properties *)

Lemma nav_at_ends_noop_witness :
  single_step (fun _ : nat => @Ok unit tt)
    {| lab := {| images := [tt; tt; tt]; labels := [0; 0; 0];
                 seen := [true; false; false]; rendered := [0] |};
       idx := 0; shown := Some 0; auto_next := true |} Prev =
  Ok {| lab := {| images := [tt; tt; tt]; labels := [0; 0; 0];
                  seen := [true; false; false]; rendered := [0] |};
        idx := 0; shown := Some 0; auto_next := true |}.
Proof.
  destruct (nav_at_ends_noop (fun _ : nat => @Ok unit tt) 0 _ reach_single_three) as (_ & H).
  apply H; reflexivity.
Defined.

Lemma nav_round_trips_witness :
  exists s1 s2, single_step (fun _ : nat => @Ok unit tt)
    {| lab := {| images := [tt; tt; tt]; labels := [0; 0; 0];
                 seen := [true; false; false]; rendered := [0] |};
       idx := 0; shown := Some 0; auto_next := true |} Next = Ok s1 /\
    single_step (fun _ : nat => @Ok unit tt) s1 Prev = Ok s2 /\
    idx s2 = 0 /\ rendered (lab s2) = [0; 1; 0].
Proof.
  destruct (nav_round_trips (fun _ : nat => @Ok unit tt) 0 _ reach_single_three) as (H & _).
  destruct (H ltac:(simpl; lia)) as (s1 & s2 & E1 & E2 & Hi & _ & Hr).
  exists s1, s2; split; [exact E1|split; [exact E2|split; [exact Hi|exact Hr]]].
Defined.

Lemma navigation_keeps_labels_witness :
  exists s', run_single (fun _ : nat => @Ok unit tt)
    {| lab := {| images := [tt; tt; tt]; labels := [1; 2; 3];
                 seen := [true; false; false]; rendered := [0] |};
       idx := 0; shown := Some 0; auto_next := true |} [Next; SetAuto false; Next; Prev]
    = Ok s' /\
    labels (lab s') = [1; 2; 3].
Proof.
  destruct (run_single (fun _ : nat => @Ok unit tt)
    {| lab := {| images := [tt; tt; tt]; labels := [1; 2; 3];
                 seen := [true; false; false]; rendered := [0] |};
       idx := 0; shown := Some 0; auto_next := true |} [Next; SetAuto false; Next; Prev])
    as [s'|x] eqn:E; [|vm_compute in E; discriminate].
  exists s'; split; [reflexivity|].
  destruct (navigation_keeps_labels (fun _ : nat => @Ok unit tt) _ s'
              [Next; SetAuto false; Next; Prev] ltac:(repeat constructor) E) as (Hl & _).
  exact Hl.
Defined.

Lemma displayed_cell_image_seen_witness :
  exists s', single_step (fun _ : nat => @Ok unit tt)
    {| lab := {| images := [tt; tt; tt]; labels := [0; 0; 0];
                 seen := [true; false; false]; rendered := [0] |};
       idx := 0; shown := Some 0; auto_next := true |} Next = Ok s' /\
    shown s' = Some (idx s') /\ nth (idx s') (seen (lab s')) false = true.
Proof.
  destruct (single_step (fun _ : nat => @Ok unit tt)
    {| lab := {| images := [tt; tt; tt]; labels := [0; 0; 0];
                 seen := [true; false; false]; rendered := [0] |};
       idx := 0; shown := Some 0; auto_next := true |} Next) as [s'|x] eqn:E;
    [|vm_compute in E; discriminate].
  exists s'; split; [reflexivity|].
  destruct (displayed_cell_image_seen (fun _ : nat => @Ok unit tt) 0 s'
              (rs_step 0 (fun _ : nat => @Ok unit tt) _ Next s' reach_single_three E))
    as (_ & Ht).
  apply Ht; intro v; reflexivity.
Defined.

Lemma auto_advance_labels_all_witness :
  exists s s', ImageLabeler_single 0 (fun _ : nat => @Ok unit tt) [tt; tt; tt] None = Ok s /\
    run_single (fun _ : nat => @Ok unit tt) s [Cell 7; Cell 8; Cell 9] = Ok s' /\
    labels (lab s') = [7; 8; 9] /\ all_seen (lab s') = true.
Proof.
  destruct (ImageLabeler_single 0 (fun _ : nat => @Ok unit tt) [tt; tt; tt] None)
    as [s|x] eqn:E; [|vm_compute in E; discriminate].
  destruct (auto_advance_labels_all (fun _ : nat => @Ok unit tt) 0 [tt; tt; tt] None s
              [7; 8; 9] ltac:(intro v; reflexivity) E eq_refl)
    as (s' & E' & Hl & _ & Ha).
  exists s, s'; split; [reflexivity|split; [exact E'|split; [exact Hl|exact Ha]]].
Defined.

Lemma click_through_renders_all_witness :
  exists s s' : Single unit pyval,
    ImageLabeler_single PNone
      (mc_new {| mc_classes := [PStr "cat"; PStr "dog"]; mc_default_class := PStr "bird" |})
      [tt; tt] (Some [PStr "cat"; PNone]) = Ok s /\
    run_single
      (mc_new {| mc_classes := [PStr "cat"; PStr "dog"]; mc_default_class := PStr "bird" |})
      s [Next] = Ok s' /\
    rendered (lab s') = [0; 1] /\ all_seen (lab s') = false.
Proof.
  destruct (ImageLabeler_single PNone
      (mc_new {| mc_classes := [PStr "cat"; PStr "dog"]; mc_default_class := PStr "bird" |})
      [tt; tt] (Some [PStr "cat"; PNone])) as [s|x] eqn:E; [|vm_compute in E; discriminate].
  destruct (click_through_renders_all
              (mc_new {| mc_classes := [PStr "cat"; PStr "dog"]; mc_default_class := PStr "bird" |})
              PNone [tt; tt] (Some [PStr "cat"; PNone]) s E)
    as (s' & E' & _ & _ & Hr & _ & Hall).
  exists s, s'; split; [reflexivity|split; [exact E'|split; [exact Hr|]]].
  destruct (all_seen (lab s')); [|reflexivity].
  exfalso; pose proof (proj1 Hall eq_refl 1 ltac:(simpl; lia)) as H1.
  vm_compute in E; injection E as <-; vm_compute in H1; discriminate.
Defined.

Lemma progress_display_tracks_index_witness :
  exists u u', ImageLabeler_single_ui 0 (fun _ : nat => @Ok unit tt) [tt; tt; tt] None = Ok u /\
    ui_step (fun _ : nat => @Ok unit tt) u Next = Ok u' /\
    label_widget u' = progress_text 2 3 /\
    bi_value (pbar_widget u') = 2%Z.
Proof.
  destruct (ImageLabeler_single_ui 0 (fun _ : nat => @Ok unit tt) [tt; tt; tt] None)
    as [u|x] eqn:E; [|vm_compute in E; discriminate].
  destruct (ui_step (fun _ : nat => @Ok unit tt) u Next) as [u'|x] eqn:E';
    [|vm_compute in E; injection E as <-; vm_compute in E'; discriminate].
  destruct (progress_display_tracks_index 0 (fun _ : nat => @Ok unit tt) u'
              (ru_step 0 (fun _ : nat => @Ok unit tt) u Next u'
                 (ru_init 0 (fun _ : nat => @Ok unit tt) _ _ u E) E'))
    as (_ & Hv & _ & _ & Hl).
  assert (Hi : idx (core u') = 1 /\ n_images (core u') = 3).
  { vm_compute in E; injection E as <-; vm_compute in E'; injection E' as <-.
    split; reflexivity. }
  destruct Hi as (Hi & Hn).
  exists u, u'; split; [reflexivity|split; [exact E'|]].
  rewrite Hl, Hv, Hi, Hn; split; reflexivity.
Defined.

Lemma multi_all_seen_invariant_witness :
  exists self', cell_callback_multi 1 9
    {| images := [tt; tt; tt]; labels := [4; 5; 6];
       seen := [true; true; true]; rendered := [0; 1; 2] |} = Ok self' /\
    all_seen self' = true.
Proof.
  destruct (cell_callback_multi 1 9
    {| images := [tt; tt; tt]; labels := [4; 5; 6];
       seen := [true; true; true]; rendered := [0; 1; 2] |}) as [self'|x] eqn:E;
    [|vm_compute in E; discriminate].
  exists self'; split; [reflexivity|].
  apply (multi_all_seen_invariant (fun _ : nat => @Ok unit tt) 0 self'
           ltac:(intro v; reflexivity)
           (rm_cell 0 (fun _ : nat => @Ok unit tt) _ 1 9 self' reach_multi_three
              ltac:(simpl; lia) E)).
Defined.

Lemma mc_new_total_iff_witness :
  MultiClassInputCellFactory_init [PStr "cat"; PStr "dog"] PNone
    = Ok {| mc_classes := [PStr "cat"; PStr "dog"]; mc_default_class := PStr "cat" |} /\
  forall v, builds_cell
              (mc_new {| mc_classes := [PStr "cat"; PStr "dog"];
                         mc_default_class := PStr "cat" |}) v = true.
Proof.
  split; [reflexivity|].
  destruct mc_new_total_iff as (_ & H).
  apply (H [PStr "cat"; PStr "dog"] PNone); [reflexivity|left; reflexivity].
Defined.
Lemma selector_clicks_sync_witness :
  exists w' out,
    tb_run {| tb_options := [PStr "cat"; PStr "dog"]; tb_value := PStr "cat" |}
      [PStr "dog"; PStr "dog"; PStr "cat"] = Ok (w', out) /\
    tb_value w' = PStr "cat" /\ last out PNone = PStr "cat".
Proof.
  destruct (tb_run {| tb_options := [PStr "cat"; PStr "dog"]; tb_value := PStr "cat" |}
              [PStr "dog"; PStr "dog"; PStr "cat"]) as [[w' out]|x] eqn:E;
    [|vm_compute in E; discriminate].
  destruct (selector_clicks_sync _ w' _ out E) as (_ & Hv & _ & _ & Hl).
  exists w', out; split; [reflexivity|split; [exact Hv|]].
  rewrite Hl; [exact Hv|].
  vm_compute in E; injection E as _ <-; discriminate.
Defined.

Lemma multiclass_no_classes_witness :
  MultiClassInputCellFactory_init [] PNone = Raise IndexError.
Proof.
  destruct (multiclass_no_classes PNone PNone) as (H & _).
  apply H; reflexivity.
Defined.
